(** * go-build: the standard task catalogue of [standard.go]

    A shallow embedding of [DefineTasks], its [config] and its two
    [Option] variants, together with the collaborators the function talks
    to: the goyek task registry, the operating system and the Go standard
    library helpers it calls. *)

From stdpp Require Import base option list strings gmap.
From Stdlib Require Import Ascii.
From Stdlib Require String.

(** ** Go standard library helpers *)

Module GoLib.

(** [strings.Join(elems, sep)]. *)
Fixpoint strings_Join (elems : list string) (sep : string) : string :=
  match elems with
  | [] => ""
  | [e] => e
  | e :: rest => e +:+ sep +:+ strings_Join rest sep
  end.

Definition slash : ascii := "/"%char.
Definition dot : ascii := "."%char.

Definition is_slash (c : ascii) : bool := Ascii.eqb c slash.
Definition is_dot (c : ascii) : bool := Ascii.eqb c dot.

(** The element that starts at the read position ends here: either the
    input is exhausted or the next byte is a separator. *)
Definition at_elem_end (rest : list ascii) : bool :=
  match rest with
  | [] => true
  | c :: _ => is_slash c
  end.

(** The [".."] case of [path.Clean] when [out.w > dotdot]: drop one byte,
    then keep dropping while the buffer is longer than [dotdot] and the
    byte just dropped is not a separator.  The buffer is kept reversed,
    its head being the byte written last. *)
Fixpoint backtrack (out : list ascii) (dotdot : nat) : list ascii :=
  match out with
  | [] => []
  | c :: rest =>
      if (dotdot <? length rest) && negb (is_slash c)
      then backtrack rest dotdot
      else rest
  end.

(** The main loop of [path.Clean] (Unix [filepath.Clean]), one input byte
    at a time.  [copying] is true while the inner loop of the default case
    is copying the bytes of an element. *)
Fixpoint clean_loop (rooted : bool) (inp : list ascii) (copying : bool)
    (out : list ascii) (dotdot : nat) : list ascii :=
  match inp with
  | [] => out
  | c :: tl =>
      if copying then
        if is_slash c then clean_loop rooted tl false out dotdot
        else clean_loop rooted tl true (c :: out) dotdot
      else if is_slash c then
        clean_loop rooted tl false out dotdot
      else if is_dot c && at_elem_end tl then
        clean_loop rooted tl false out dotdot
      else
        let default :=
          let out1 :=
            if (rooted && negb (length out =? 1))
               || (negb rooted && negb (length out =? 0))
            then slash :: out else out in
          clean_loop rooted tl true (c :: out1) dotdot in
        match tl with
        | c2 :: tl2 =>
            if is_dot c && is_dot c2 && at_elem_end tl2 then
              if dotdot <? length out then
                clean_loop rooted tl2 false (backtrack out dotdot) dotdot
              else if negb rooted then
                let out1 := if 0 <? length out then slash :: out else out in
                let out2 := dot :: dot :: out1 in
                clean_loop rooted tl2 false out2 (length out2)
              else clean_loop rooted tl2 false out dotdot
            else default
        | [] => default
        end
  end.

(** [filepath.Clean] on a Unix system. *)
Definition filepath_Clean (path : string) : string :=
  match String.list_ascii_of_string path with
  | [] => "."
  | c :: tl =>
      let out :=
        if is_slash c
        then clean_loop true tl false [slash] 1
        else clean_loop false (c :: tl) false [] 0 in
      match out with
      | [] => "."
      | _ => String.string_of_list_ascii (rev out)
      end
  end.

(** [filepath.Join] on a Unix system: leading empty elements are skipped,
    the rest is joined with the separator and cleaned. *)
Fixpoint filepath_Join (elem : list string) : string :=
  match elem with
  | [] => ""
  | e :: rest =>
      if String.eqb e "" then filepath_Join rest
      else filepath_Clean (strings_Join elem "/")
  end.

End GoLib.

Import GoLib.

(** ** Configuration and options *)

(** [type config struct]. *)
Record config := mkConfig {
  artifactsPath : string;
  excludeTasks : list string
}.

(** [func (c *config) excluded(task string) bool], that is
    [slices.Contains(c.excludeTasks, task)]. *)
Definition excluded (c : config) (task : string) : bool :=
  bool_decide (task ∈ excludeTasks c).

(** [type Option interface { apply(conf *config) }] has two implementations,
    the values built by [ArtifactsPath(path)] and [ExcludeTasks(task...)]. *)
Inductive Option :=
  | ArtifactsPath (path : string)
  | ExcludeTasks (task : list string).

(** [func (a artifactsPath) apply(c *config)]. *)
Definition artifactsPath_apply (a : string) (c : config) : config :=
  {| artifactsPath := a; excludeTasks := excludeTasks c |}.

(** [func (e excludeTasks) apply(c *config)]. *)
Definition excludeTasks_apply (tasks : list string) (c : config) : config :=
  {| artifactsPath := artifactsPath c; excludeTasks := excludeTasks c ++ tasks |}.

Definition apply (o : Option) (c : config) : config :=
  match o with
  | ArtifactsPath a => artifactsPath_apply a c
  | ExcludeTasks tasks => excludeTasks_apply tasks c
  end.

(** The first statements of [DefineTasks]: the default configuration and
    the loop [for _, o := range opts { o.apply(&conf) }]. *)
Definition defaultConfig : config :=
  {| artifactsPath := "out"; excludeTasks := [] |}.

Definition resolveConfig (opts : list Option) : config :=
  foldl (λ conf o, apply o conf) defaultConfig opts.

(** ** The operating system and one task run *)

Inductive OsCall :=
  | CallStat (name : string)
  | CallMkdirAll (path : string) (perm : N)
  | CallRun (cmdLine : string).

(** What the outside world answers: [None] is a nil error, [Some e] an
    error whose text is [e]. *)
Record World := mkWorld {
  stat_err : string → option string;
  mkdirAll_err : string → N → option string;
  run_err : string → option string
}.

(** The part of [*goyek.A] an action can change (the failure flag and the
    messages reported through it), with the operating system calls the
    action has issued so far. *)
Record Run := mkRun {
  failed : bool;
  messages : list string;
  calls : list OsCall
}.

Definition Action : Type := World → Run → Run.

(** Two sample worlds: one where build/go.mod exists and every call
    succeeds, one where it is missing and no directory can be created. *)
Definition kindWorld : World :=
  {| stat_err := λ _, None; mkdirAll_err := λ _ _, None;
     run_err := λ _, None |}.

Definition harshWorld : World :=
  {| stat_err := λ _, Some "no such file or directory";
     mkdirAll_err := λ _ _, Some "permission denied";
     run_err := λ _, Some "exit status 1" |}.

(** A world that answers the probe with another error than [harshWorld]. *)
Definition lockedWorld : World :=
  {| stat_err := λ _, Some "permission denied"; mkdirAll_err := λ _ _, None;
     run_err := λ _, None |}.

Definition fresh_run : Run := {| failed := false; messages := []; calls := [] |}.

(** [a.Errorf] and [a.Error]: report the message and mark the task as
    failed; the action keeps running. *)
Definition A_Errorf (msg : string) (a : Run) : Run :=
  {| failed := true; messages := messages a ++ [msg]; calls := calls a |}.

Definition issue (c : OsCall) (a : Run) : Run :=
  {| failed := failed a; messages := messages a; calls := calls a ++ [c] |}.

(** [os.MkdirAll(path, perm)] called from an action. *)
Definition os_MkdirAll (w : World) (path : string) (perm : N) (a : Run)
    : option string * Run :=
  (mkdirAll_err w path perm, issue (CallMkdirAll path perm) a).

(** [cmd.Exec(a, cmdLine)] of goyek/x: runs the command line; when it fails
    the error is reported with [a.Error] and false is returned. *)
Definition cmd_Exec (w : World) (cmdLine : string) (a : Run) : bool * Run :=
  let a := issue (CallRun cmdLine) a in
  match run_err w cmdLine with
  | None => (true, a)
  | Some e => (false, A_Errorf e a)
  end.

(** The external command lines an action ran, in order. *)
Definition commands (a : Run) : list string :=
  omap (λ c, match c with CallRun l => Some l | _ => None end) (calls a).

(** ** The goyek registry and the package state *)

(** [goyek.Task]; a [*goyek.DefinedTask] is represented by the name it was
    defined under, which is its key in the registry. *)
Record Task := mkTask {
  Name : string;
  Usage : string;
  Parallel : bool;
  TaskAction : option Action;
  Deps : list string
}.

(** The default flow of goyek, the package-level dependency buckets and the
    operating system calls made while registering.  The bucket variables
    [formatTasks], [lintTasks] and [generateTasks] are declared outside
    [standard.go]; they are ordered collections of task handles. *)
Record Env := mkEnv {
  flow : gmap string Task;
  formatTasks : list string;
  lintTasks : list string;
  generateTasks : list string;
  oscalls : list OsCall
}.

Definition initialEnv : Env :=
  {| flow := ∅; formatTasks := []; lintTasks := []; generateTasks := [];
     oscalls := [] |}.

Definition env_define (task : Task) (s : Env) : Env :=
  {| flow := <[Name task := task]> (flow s);
     formatTasks := formatTasks s; lintTasks := lintTasks s;
     generateTasks := generateTasks s; oscalls := oscalls s |}.

Definition env_format (task : string) (s : Env) : Env :=
  {| flow := flow s; formatTasks := formatTasks s ++ [task];
     lintTasks := lintTasks s; generateTasks := generateTasks s;
     oscalls := oscalls s |}.

Definition env_lint (task : string) (s : Env) : Env :=
  {| flow := flow s; formatTasks := formatTasks s;
     lintTasks := lintTasks s ++ [task]; generateTasks := generateTasks s;
     oscalls := oscalls s |}.

Definition env_oscall (c : OsCall) (s : Env) : Env :=
  {| flow := flow s; formatTasks := formatTasks s; lintTasks := lintTasks s;
     generateTasks := generateTasks s; oscalls := oscalls s ++ [c] |}.

Inductive Result (X : Type) :=
  | Ok (x : X)
  | Panic (msg : string).
Arguments Ok {X} x.
Arguments Panic {X} msg.

(** Registration code: it reads and updates the environment and may panic. *)
Definition Reg (X : Type) : Type := Env → Result (X * Env).

#[global] Instance Reg_ret : MRet Reg := λ X x s, Ok (x, s).
#[global] Instance Reg_bind : MBind Reg := λ X Y f m s,
  match m s with
  | Ok (x, s') => f x s'
  | Panic e => Panic e
  end.

Definition gets {X} (f : Env → X) : Reg X := λ s, Ok (f s, s).

(** [goyek.Define]: panics on an empty name, on a name already defined and
    on a dependency that is not defined; otherwise stores a snapshot of the
    task and returns the handle of the defined task. *)
Definition Define (task : Task) : Reg string := λ s,
  if bool_decide (Name task = "") then
    Panic "task name cannot be empty"
  else if bool_decide (is_Some (flow s !! Name task)) then
    Panic "task with the same name is already defined"
  else
    match filter (λ dep, flow s !! dep = None) (Deps task) with
    | dep :: _ => Panic ("dependency was not defined: " +:+ dep)
    | [] => Ok (Name task, env_define task s)
    end.

(** [os.Stat(name)] called while registering. *)
Definition os_Stat (w : World) (name : string) : Reg (option string) := λ s,
  Ok (stat_err w name, env_oscall (CallStat name) s).

(** Modelled from the spec: [RegisterFormatTask] is declared in a file of
    the package that is not part of the sources at hand.  The spec has every
    task registered under the format family appended to the format bucket. *)
Definition RegisterFormatTask (task : string) : Reg unit := λ s,
  Ok ((), env_format task s).

(** Modelled from the spec: [RegisterLintTask] is declared in a file of the
    package that is not part of the sources at hand.  The spec has every
    task registered under the lint family appended to the lint bucket. *)
Definition RegisterLintTask (task : string) : Reg unit := λ s,
  Ok ((), env_lint task s).

(** The permission bits [0o755]. *)
Definition perm_0o755 : N := 493.

(** ** [DefineTasks] *)

Section Standard.

(** The pinned tool versions [verGolangCILint], [verGoPrettier] and
    [verGoYamllint] are constants of the package declared outside
    [standard.go]; the development is parametric in them. *)
Variables verGolangCILint verGoPrettier verGoYamllint : string.

Definition formatGoAction (golangciTargets : list string) : Action := λ w a,
  (cmd_Exec w
     ("go run github.com/golangci/golangci-lint/cmd/golangci-lint@"
      +:+ verGolangCILint +:+ " run --fix --timeout=20m "
      +:+ strings_Join golangciTargets " ") a).2.

Definition formatGoTask (golangciTargets : list string) : Task :=
  {| Name := "format-go"; Usage := "Formats Go code."; Parallel := true;
     TaskAction := Some (formatGoAction golangciTargets); Deps := [] |}.

Definition lintGoAction (golangciTargets : list string) : Action := λ w a,
  (cmd_Exec w
     ("go run github.com/golangci/golangci-lint/cmd/golangci-lint@"
      +:+ verGolangCILint +:+ " run --timeout=20m "
      +:+ strings_Join golangciTargets " ") a).2.

Definition lintGoTask (golangciTargets : list string) : Task :=
  {| Name := "lint-go"; Usage := "Lints Go code."; Parallel := true;
     TaskAction := Some (lintGoAction golangciTargets); Deps := [] |}.

Definition formatMarkdownAction : Action := λ w a,
  (cmd_Exec w
     ("go run github.com/wasilibs/go-prettier/cmd/prettier@" +:+ verGoPrettier
      +:+ " --no-error-on-unmatched-pattern --write '**/*.md'") a).2.

Definition formatMarkdownTask : Task :=
  {| Name := "format-markdown"; Usage := "Formats Markdown code.";
     Parallel := true; TaskAction := Some formatMarkdownAction; Deps := [] |}.

Definition lintMarkdownAction : Action := λ w a,
  (cmd_Exec w
     ("go run github.com/wasilibs/go-prettier/cmd/prettier@" +:+ verGoPrettier
      +:+ " --no-error-on-unmatched-pattern --check '**/*.md'") a).2.

Definition lintMarkdownTask : Task :=
  {| Name := "lint-markdown"; Usage := "Lints Markdown code.";
     Parallel := true; TaskAction := Some lintMarkdownAction; Deps := [] |}.

Definition formatYamlAction : Action := λ w a,
  (cmd_Exec w
     ("go run github.com/wasilibs/go-prettier/cmd/prettier@" +:+ verGoPrettier
      +:+ " --no-error-on-unmatched-pattern --write '**/*.yaml' '**/*.yml'") a).2.

Definition formatYamlTask : Task :=
  {| Name := "format-yaml"; Usage := "Formats YAML code."; Parallel := true;
     TaskAction := Some formatYamlAction; Deps := [] |}.

Definition lintYamlAction : Action := λ w a,
  let a :=
    (cmd_Exec w
       ("go run github.com/wasilibs/go-prettier/cmd/prettier@" +:+ verGoPrettier
        +:+ " --no-error-on-unmatched-pattern --check '**/*.yaml' '**/*.yml'")
       a).2 in
  (cmd_Exec w
     ("go run github.com/wasilibs/go-yamllint/cmd/yamllint@" +:+ verGoYamllint
      +:+ " .") a).2.

Definition lintYamlTask : Task :=
  {| Name := "lint-yaml"; Usage := "Lints YAML code."; Parallel := true;
     TaskAction := Some lintYamlAction; Deps := [] |}.

(** The meta tasks leave [Parallel] and [Action] at their zero values. *)
Definition formatTask (deps : list string) : Task :=
  {| Name := "format"; Usage := "Format code in various languages.";
     Parallel := false; TaskAction := None; Deps := deps |}.

Definition lintTask (deps : list string) : Task :=
  {| Name := "lint"; Usage := "Lints code in various languages.";
     Parallel := false; TaskAction := None; Deps := deps |}.

Definition generateTask (deps : list string) : Task :=
  {| Name := "generate"; Usage := "Generates code.";
     Parallel := false; TaskAction := None; Deps := deps |}.

(** The action of "test"; the closure reads [conf.artifactsPath] when the
    task runs. *)
Definition testAction (conf : config) : Action := λ w a,
  let '(err, a) := os_MkdirAll w (artifactsPath conf) perm_0o755 a in
  match err with
  | Some e => A_Errorf ("failed to create out directory: " +:+ e) a
  | None =>
      (cmd_Exec w
         ("go test -coverprofile="
          +:+ filepath_Join [artifactsPath conf; "coverage.txt"]
          +:+ " -covermode=atomic -v -timeout=20m ./...") a).2
  end.

Definition testTask (conf : config) : Task :=
  {| Name := "test"; Usage := "Runs unit tests."; Parallel := false;
     TaskAction := Some (testAction conf); Deps := [] |}.

Definition checkTask (lint test : string) : Task :=
  {| Name := "check"; Usage := "Runs all checks."; Parallel := false;
     TaskAction := None; Deps := [lint; test] |}.

(** [golangciTargets] once the probe for build/go.mod has answered. *)
Definition golangciTargetsFor (err : option string) : list string :=
  if err is None then ["./..."] ++ ["./build"] else ["./..."].

(** [DefineTasks] from the probe for build/go.mod on, for a configuration
    that is already resolved. *)
Definition defineTasksWith (w : World) (conf : config) : Reg unit :=
  err ← os_Stat w (filepath_Join ["build"; "go.mod"]);
  let golangciTargets := golangciTargetsFor err in
  (if negb (excluded conf "format-go")
   then Define (formatGoTask golangciTargets) ≫= RegisterFormatTask
   else mret ());;
  (if negb (excluded conf "lint-go")
   then Define (lintGoTask golangciTargets) ≫= RegisterLintTask
   else mret ());;
  (if negb (excluded conf "format-markdown")
   then Define formatMarkdownTask ≫= RegisterFormatTask
   else mret ());;
  (if negb (excluded conf "lint-markdown")
   then Define lintMarkdownTask ≫= RegisterLintTask
   else mret ());;
  (if negb (excluded conf "format-yaml")
   then Define formatYamlTask ≫= RegisterFormatTask
   else mret ());;
  (if negb (excluded conf "lint-yaml")
   then Define lintYamlTask ≫= RegisterLintTask
   else mret ());;
  formatDeps ← gets formatTasks;
  Define (formatTask formatDeps);;
  lintDeps ← gets lintTasks;
  lint ← Define (lintTask lintDeps);
  generateDeps ← gets generateTasks;
  Define (generateTask generateDeps);;
  test ← Define (testTask conf);
  Define (checkTask lint test);;
  mret ().

(** [func DefineTasks(opts ...Option)]. *)
Definition DefineTasks (w : World) (opts : list Option) : Reg unit :=
  defineTasksWith w (resolveConfig opts).

(** *** The registration without its panics

    The environment [DefineTasks] leaves behind when no call of
    [goyek.Define] panics, written as a composition of environment updates.
    [defineTasksWith_run] below relates it to the code. *)

Definition addFormat (skip : bool) (task : Task) (s : Env) : Env :=
  if skip then s else env_format (Name task) (env_define task s).

Definition addLint (skip : bool) (task : Task) (s : Env) : Env :=
  if skip then s else env_lint (Name task) (env_define task s).

Definition registered (w : World) (conf : config) (s : Env) : Env :=
  let targets := golangciTargetsFor (stat_err w "build/go.mod") in
  let s := env_oscall (CallStat "build/go.mod") s in
  let s := addFormat (excluded conf "format-go") (formatGoTask targets) s in
  let s := addLint (excluded conf "lint-go") (lintGoTask targets) s in
  let s := addFormat (excluded conf "format-markdown") formatMarkdownTask s in
  let s := addLint (excluded conf "lint-markdown") lintMarkdownTask s in
  let s := addFormat (excluded conf "format-yaml") formatYamlTask s in
  let s := addLint (excluded conf "lint-yaml") lintYamlTask s in
  let s := env_define (formatTask (formatTasks s)) s in
  let s := env_define (lintTask (lintTasks s)) s in
  let s := env_define (generateTask (generateTasks s)) s in
  let s := env_define (testTask conf) s in
  env_define (checkTask "lint" "test") s.

(** The six leaf tasks as [DefineTasks] builds them. *)
Definition leafTask (w : World) (n : string) : option Task :=
  let targets := golangciTargetsFor (stat_err w "build/go.mod") in
  if decide (n = "format-go") then Some (formatGoTask targets)
  else if decide (n = "lint-go") then Some (lintGoTask targets)
  else if decide (n = "format-markdown") then Some formatMarkdownTask
  else if decide (n = "lint-markdown") then Some lintMarkdownTask
  else if decide (n = "format-yaml") then Some formatYamlTask
  else if decide (n = "lint-yaml") then Some lintYamlTask
  else None.

(** ** Names and preconditions used in the statements *)

Inductive family := Format | Lint.

(** The six leaf tasks with the bucket each one is registered into. *)
Definition leafCatalog : list (string * family) :=
  [("format-go", Format); ("lint-go", Lint);
   ("format-markdown", Format); ("lint-markdown", Lint);
   ("format-yaml", Format); ("lint-yaml", Lint)].

Definition leafNames : list string := leafCatalog.*1.

Definition metaNames : list string :=
  ["format"; "lint"; "generate"; "test"; "check"].

Definition bucket (f : family) (s : Env) : list string :=
  match f with
  | Format => formatTasks s
  | Lint => lintTasks s
  end.

(** The handles held by the three buckets. *)
Definition bucketed (s : Env) : list string :=
  formatTasks s ++ lintTasks s ++ generateTasks s.

(** An environment in which [DefineTasks] can be called: none of its eleven
    names is taken, and every handle in a bucket is a defined task (handles
    only come from [goyek.Define]). *)
Definition handles_defined (s : Env) : Prop :=
  Forall (λ d, is_Some (flow s !! d)) (bucketed s).

Definition ready (s : Env) : Prop :=
  Forall (λ n, flow s !! n = None) (leafNames ++ metaNames)
  ∧ handles_defined s.

(** The option list without the excluded names selected by [drop]. *)
Definition dropNames (drop : string → bool) (opts : list Option) : list Option :=
  (λ o, match o with
        | ArtifactsPath a => ArtifactsPath a
        | ExcludeTasks tasks => ExcludeTasks (filter (λ n, drop n = false) tasks)
        end) <$> opts.

(** The paths and the names an option list carries, in order. *)
Definition pathsOf (opts : list Option) : list string :=
  omap (λ o, match o with ArtifactsPath a => Some a | _ => None end) opts.

Definition namesOf (opts : list Option) : list string :=
  opts ≫= (λ o, match o with ExcludeTasks tasks => tasks | _ => [] end).

(** A process in which the caller has defined a "lint-go" task of its own
    and registered it as a lint task before calling [DefineTasks]. *)
Definition callerLintGo : Task :=
  {| Name := "lint-go"; Usage := "Lints Go code the way this project does.";
     Parallel := false; TaskAction := None; Deps := [] |}.

Definition callerEnv : Env :=
  env_lint "lint-go" (env_define callerLintGo initialEnv).

(** The names [DefineTasks] defines under a configuration: the leaf names
    that are not excluded, then the five meta names. *)
Definition namesDefined (conf : config) : list string :=
  filter (λ n, excluded conf n = false) leafNames ++ metaNames.

(** The panic of [goyek.Define] on a name that is taken. *)
Definition alreadyDefined : string :=
  "task with the same name is already defined".

(** A registry in good order: every task is stored under its own name,
    every dependency of every task is a defined task, and so is every
    handle in a bucket. *)
Definition wellformed (s : Env) : Prop :=
  handles_defined s
  ∧ ∀ n t, flow s !! n = Some t →
      Name t = n ∧ Forall (λ d, is_Some (flow s !! d)) (Deps t).


(** A directory name of one element: not empty, not "." or "..", and
    without a separator. *)
Definition plain_dir (d : string) : Prop :=
  d ≠ "" ∧ d ≠ "." ∧ d ≠ ".." ∧ slash ∉ String.list_ascii_of_string d.


(** [b] is a dependency of [a], directly or through other tasks. *)
Inductive depends_on (m : gmap string Task) : string → string → Prop :=
  | depends_direct a b t :
      m !! a = Some t → b ∈ Deps t → depends_on m a b
  | depends_through a b c t :
      m !! a = Some t → b ∈ Deps t → depends_on m b c → depends_on m a c.

(** * Properties *)

(** ** The Go library model on the paths of interest *)

Example Join_build : filepath_Join ["build"; "go.mod"] = "build/go.mod".
Proof. reflexivity. Qed.

Example Join_dist :
  filepath_Join ["dist"; "coverage.txt"] = "dist/coverage.txt".
Proof. reflexivity. Qed.

Example Join_out : filepath_Join ["out"; "coverage.txt"] = "out/coverage.txt".
Proof. reflexivity. Qed.

Example Join_empty_dir : filepath_Join [""; "coverage.txt"] = "coverage.txt".
Proof. reflexivity. Qed.

Example Join_unclean :
  filepath_Join ["a/../b//c/./"; "coverage.txt"] = "b/c/coverage.txt".
Proof. reflexivity. Qed.

Example Clean_dotdot : filepath_Clean "../../a/../../x" = "../../../x".
Proof. reflexivity. Qed.

Example Clean_rooted : filepath_Clean "/../a/b/../.." = "/".
Proof. reflexivity. Qed.

(** ** Resolving the configuration *)

Lemma excluded_true c n : excluded c n = true ↔ n ∈ excludeTasks c.
Proof. unfold excluded. apply bool_decide_eq_true. Qed.

Lemma excluded_false c n : excluded c n = false ↔ n ∉ excludeTasks c.
Proof. unfold excluded. apply bool_decide_eq_false. Qed.

Lemma excluded_default n : excluded defaultConfig n = false.
Proof. apply excluded_false. simpl. apply not_elem_of_nil. Qed.

Lemma resolveConfig_snoc opts o :
  resolveConfig (opts ++ [o]) = apply o (resolveConfig opts).
Proof. unfold resolveConfig. by rewrite foldl_app. Qed.

Lemma excluded_apply_ExcludeTasks tasks c n :
  excluded (apply (ExcludeTasks tasks) c) n
  = excluded c n || bool_decide (n ∈ tasks).
Proof.
  apply eq_true_iff_eq. rewrite orb_true_iff, bool_decide_eq_true.
  rewrite !excluded_true. simpl. apply elem_of_app.
Qed.

Lemma excluded_apply_ArtifactsPath a c n :
  excluded (apply (ArtifactsPath a) c) n = excluded c n.
Proof. reflexivity. Qed.

(** The configuration an option list resolves to, field by field. *)
Lemma resolveConfig_fields opts :
  resolveConfig opts
  = {| artifactsPath := List.last (pathsOf opts) "out";
       excludeTasks := namesOf opts |}.
Proof.
  induction opts as [|o opts IH] using rev_ind; [done|].
  rewrite resolveConfig_snoc, IH. unfold pathsOf, namesOf.
  rewrite omap_app, bind_app. simpl.
  destruct o as [a|tasks]; simpl.
  - unfold artifactsPath_apply. simpl. f_equal.
    + by rewrite List.last_last.
    + by rewrite app_nil_r.
  - unfold excludeTasks_apply. simpl. f_equal.
    + by rewrite app_nil_r.
    + by rewrite app_nil_r.
Qed.

Lemma elem_of_namesOf n opts :
  n ∈ namesOf opts ↔ ∃ tasks, ExcludeTasks tasks ∈ opts ∧ n ∈ tasks.
Proof.
  unfold namesOf. rewrite list_elem_of_bind. split.
  - intros [[a|tasks] [Hn Ho]]; [by apply elem_of_nil in Hn|]. eauto.
  - intros (tasks & Ho & Hn). exists (ExcludeTasks tasks). eauto.
Qed.

(** A name is excluded exactly when some [ExcludeTasks] option carries it. *)
Lemma excluded_resolveConfig opts n :
  excluded (resolveConfig opts) n = true
  ↔ ∃ tasks, ExcludeTasks tasks ∈ opts ∧ n ∈ tasks.
Proof.
  rewrite excluded_true, resolveConfig_fields. simpl. apply elem_of_namesOf.
Qed.

Lemma pathsOf_dropNames drop opts : pathsOf (dropNames drop opts) = pathsOf opts.
Proof.
  unfold pathsOf, dropNames.
  induction opts as [|[a|tasks] opts IH]; [done|..]; rewrite fmap_cons; simpl.
  - f_equal. exact IH.
  - exact IH.
Qed.

Lemma elem_of_namesOf_dropNames drop opts n :
  n ∈ namesOf (dropNames drop opts) ↔ n ∈ namesOf opts ∧ drop n = false.
Proof.
  unfold namesOf, dropNames.
  induction opts as [|[a|tasks] opts IH]; simpl.
  - rewrite elem_of_nil. tauto.
  - exact IH.
  - rewrite !elem_of_app, IH, list_elem_of_filter. tauto.
Qed.

(** ** Running registration code *)

Lemma bind_run {X Y} (m : Reg X) (f : X → Reg Y) s x s' :
  m s = Ok (x, s') → (m ≫= f) s = f x s'.
Proof. unfold mbind, Reg_bind. by intros ->. Qed.

Lemma gets_run {X} (f : Env → X) s : gets f s = Ok (f s, s).
Proof. reflexivity. Qed.

Lemma os_Stat_run w name s :
  os_Stat w name s = Ok (stat_err w name, env_oscall (CallStat name) s).
Proof. reflexivity. Qed.

Lemma Define_run task s :
  Name task ≠ "" →
  flow s !! Name task = None →
  Forall (λ d, is_Some (flow s !! d)) (Deps task) →
  Define task s = Ok (Name task, env_define task s).
Proof.
  intros Hname Hfresh Hdeps. unfold Define.
  rewrite bool_decide_eq_false_2 by done.
  rewrite bool_decide_eq_false_2 by (rewrite Hfresh; apply is_Some_None).
  replace (filter _ (Deps task)) with (@nil string); [done|].
  symmetry. induction Hdeps as [|d l [t Ht] _ IH]; [done|].
  rewrite filter_cons_False by congruence. exact IH.
Qed.

Lemma addFormat_run skip task s :
  Name task ≠ "" → Deps task = [] → flow s !! Name task = None →
  (if negb skip then Define task ≫= RegisterFormatTask else mret ()) s
  = Ok ((), addFormat skip task s).
Proof.
  intros Hname Hdeps Hfresh. destruct skip; [done|]. simpl.
  erewrite bind_run; [done|]. apply Define_run; [done..|].
  rewrite Hdeps. constructor.
Qed.

Lemma addLint_run skip task s :
  Name task ≠ "" → Deps task = [] → flow s !! Name task = None →
  (if negb skip then Define task ≫= RegisterLintTask else mret ()) s
  = Ok ((), addLint skip task s).
Proof.
  intros Hname Hdeps Hfresh. destruct skip; [done|]. simpl.
  erewrite bind_run; [done|]. apply Define_run; [done..|].
  rewrite Hdeps. constructor.
Qed.

(** *** What each update does to the registry *)

Lemma flow_env_define_eq task s n :
  Name task = n → flow (env_define task s) !! n = Some task.
Proof. intros <-. apply lookup_insert_eq. Qed.

Lemma flow_env_define_ne task s n :
  Name task ≠ n → flow (env_define task s) !! n = flow s !! n.
Proof. intros Hne. by apply lookup_insert_ne. Qed.

Lemma flow_addFormat_eq task s n :
  Name task = n → flow (addFormat false task s) !! n = Some task.
Proof. apply (flow_env_define_eq task s n). Qed.

Lemma flow_addFormat_ne skip task s n :
  Name task ≠ n → flow (addFormat skip task s) !! n = flow s !! n.
Proof. destruct skip; [done|]. apply (flow_env_define_ne task s n). Qed.

Lemma flow_addLint_eq task s n :
  Name task = n → flow (addLint false task s) !! n = Some task.
Proof. apply (flow_env_define_eq task s n). Qed.

Lemma flow_addLint_ne skip task s n :
  Name task ≠ n → flow (addLint skip task s) !! n = flow s !! n.
Proof. destruct skip; [done|]. apply (flow_env_define_ne task s n). Qed.

Lemma addFormat_skip task s : addFormat true task s = s.
Proof. reflexivity. Qed.

Lemma addLint_skip task s : addLint true task s = s.
Proof. reflexivity. Qed.

Lemma flow_env_oscall c s : flow (env_oscall c s) = flow s.
Proof. reflexivity. Qed.

(** *** What each update does to the buckets *)

Lemma formatTasks_addFormat skip task s :
  formatTasks (addFormat skip task s)
  = formatTasks s ++ (if skip then [] else [Name task]).
Proof. destruct skip; simpl; [by rewrite app_nil_r | done]. Qed.

Lemma formatTasks_addLint skip task s :
  formatTasks (addLint skip task s) = formatTasks s.
Proof. by destruct skip. Qed.

Lemma lintTasks_addLint skip task s :
  lintTasks (addLint skip task s)
  = lintTasks s ++ (if skip then [] else [Name task]).
Proof. destruct skip; simpl; [by rewrite app_nil_r | done]. Qed.

Lemma lintTasks_addFormat skip task s :
  lintTasks (addFormat skip task s) = lintTasks s.
Proof. by destruct skip. Qed.

Lemma generateTasks_addFormat skip task s :
  generateTasks (addFormat skip task s) = generateTasks s.
Proof. by destruct skip. Qed.

Lemma generateTasks_addLint skip task s :
  generateTasks (addLint skip task s) = generateTasks s.
Proof. by destruct skip. Qed.

Lemma oscalls_addFormat skip task s :
  oscalls (addFormat skip task s) = oscalls s.
Proof. by destruct skip. Qed.

Lemma oscalls_addLint skip task s :
  oscalls (addLint skip task s) = oscalls s.
Proof. by destruct skip. Qed.

(** *** Every handle in a bucket stays a defined task *)

Lemma handles_defined_env_define task s :
  handles_defined s → handles_defined (env_define task s).
Proof.
  unfold handles_defined, bucketed. simpl. intros H.
  eapply Forall_impl; [exact H|]. intros d Hd. simpl in Hd.
  rewrite lookup_insert_is_Some. destruct (decide (Name task = d)); auto.
Qed.

Lemma handles_defined_env_oscall c s :
  handles_defined s → handles_defined (env_oscall c s).
Proof. done. Qed.

Lemma handles_defined_addFormat skip task s :
  handles_defined s → handles_defined (addFormat skip task s).
Proof.
  intros H. destruct skip; [done|].
  apply (handles_defined_env_define task) in H. revert H.
  unfold addFormat, handles_defined, bucketed. simpl.
  rewrite !Forall_app, Forall_singleton. intros (? & ? & ?).
  repeat split; try done. rewrite lookup_insert_eq. eauto.
Qed.

Lemma handles_defined_addLint skip task s :
  handles_defined s → handles_defined (addLint skip task s).
Proof.
  intros H. destruct skip; [done|].
  apply (handles_defined_env_define task) in H. revert H.
  unfold addLint, handles_defined, bucketed. simpl.
  rewrite !Forall_app, Forall_singleton. intros (? & ? & ?).
  repeat split; try done. rewrite lookup_insert_eq. eauto.
Qed.

Lemma handles_defined_format s :
  handles_defined s → Forall (λ d, is_Some (flow s !! d)) (formatTasks s).
Proof. unfold handles_defined, bucketed. rewrite !Forall_app. tauto. Qed.

Lemma handles_defined_lint s :
  handles_defined s → Forall (λ d, is_Some (flow s !! d)) (lintTasks s).
Proof. unfold handles_defined, bucketed. rewrite !Forall_app. tauto. Qed.

Lemma handles_defined_generate s :
  handles_defined s → Forall (λ d, is_Some (flow s !! d)) (generateTasks s).
Proof. unfold handles_defined, bucketed. rewrite !Forall_app. tauto. Qed.

(** *** The code and its panic-free form agree on a ready environment *)

Lemma ready_names s :
  ready s → ∀ n, n ∈ leafNames ++ metaNames → flow s !! n = None.
Proof. intros [H _]. by apply Forall_forall. Qed.

(** Looks a name up below the updates that define other names. *)
Ltac flow_skip :=
  repeat first
    [ rewrite flow_env_define_ne by done
    | rewrite flow_addFormat_ne by done
    | rewrite flow_addLint_ne by done
    | rewrite flow_env_oscall ].

Ltac flow_lookup :=
  flow_skip;
  try first
    [ apply flow_env_define_eq; reflexivity
    | apply flow_addFormat_eq; reflexivity
    | apply flow_addLint_eq; reflexivity ].

Ltac handles :=
  repeat first
    [ apply handles_defined_env_define
    | apply handles_defined_addFormat
    | apply handles_defined_addLint
    | apply handles_defined_env_oscall ];
  assumption.

Lemma defineTasksWith_run w conf s :
  ready s → defineTasksWith w conf s = Ok ((), registered w conf s).
Proof.
  intros Hready. pose proof (ready_names s Hready) as Hfresh.
  destruct Hready as [_ Hwf].
  unfold defineTasksWith, registered.
  change (filepath_Join ["build"; "go.mod"]) with "build/go.mod".
  erewrite bind_run by apply os_Stat_run.
  erewrite bind_run; cycle 1.
  { apply addFormat_run; [done..|]. apply Hfresh. set_solver. }
  erewrite bind_run; cycle 1.
  { apply addLint_run; [done..|]. flow_lookup. apply Hfresh. set_solver. }
  erewrite bind_run; cycle 1.
  { apply addFormat_run; [done..|]. flow_lookup. apply Hfresh. set_solver. }
  erewrite bind_run; cycle 1.
  { apply addLint_run; [done..|]. flow_lookup. apply Hfresh. set_solver. }
  erewrite bind_run; cycle 1.
  { apply addFormat_run; [done..|]. flow_lookup. apply Hfresh. set_solver. }
  erewrite bind_run; cycle 1.
  { apply addLint_run; [done..|]. flow_lookup. apply Hfresh. set_solver. }
  erewrite bind_run by apply gets_run.
  erewrite bind_run; cycle 1.
  { apply Define_run; [done| |].
    - flow_lookup. apply Hfresh. set_solver.
    - apply handles_defined_format. handles. }
  erewrite bind_run by apply gets_run.
  erewrite bind_run; cycle 1.
  { apply Define_run; [done| |].
    - flow_lookup. apply Hfresh. set_solver.
    - apply handles_defined_lint. handles. }
  erewrite bind_run by apply gets_run.
  erewrite bind_run; cycle 1.
  { apply Define_run; [done| |].
    - flow_lookup. apply Hfresh. set_solver.
    - apply handles_defined_generate. handles. }
  erewrite bind_run; cycle 1.
  { apply Define_run; [done| |].
    - flow_lookup. apply Hfresh. set_solver.
    - constructor. }
  erewrite bind_run; cycle 1.
  { apply Define_run; [done| |].
    - flow_lookup. apply Hfresh. set_solver.
    - repeat constructor; eexists; flow_lookup. }
  reflexivity.
Qed.

Lemma ready_initialEnv : ready initialEnv.
Proof.
  split.
  - apply Forall_forall. intros n _. apply lookup_empty.
  - constructor.
Qed.

Lemma DefineTasks_run w opts s :
  ready s → DefineTasks w opts s = Ok ((), registered w (resolveConfig opts) s).
Proof. apply defineTasksWith_run. Qed.

(** A handle held by a bucket of a ready environment is none of the names
    [DefineTasks] is about to define. *)
Lemma ready_bucketed s n :
  ready s → n ∈ leafNames ++ metaNames → n ∉ bucketed s.
Proof.
  intros Hready Hn Hin. pose proof (ready_names s Hready n Hn) as Hfresh.
  destruct Hready as [_ Hwf]. unfold handles_defined in Hwf.
  rewrite Forall_forall in Hwf. apply Hwf in Hin.
  rewrite Hfresh in Hin. by apply is_Some_None in Hin.
Qed.

(** *** The environment after registration *)

Ltac env_fields :=
  repeat first
    [ rewrite formatTasks_addFormat | rewrite formatTasks_addLint
    | rewrite lintTasks_addFormat | rewrite lintTasks_addLint
    | rewrite generateTasks_addFormat | rewrite generateTasks_addLint
    | rewrite oscalls_addFormat | rewrite oscalls_addLint ].

Lemma oscalls_registered w conf s :
  oscalls (registered w conf s) = oscalls s ++ [CallStat "build/go.mod"].
Proof.
  unfold registered. cbn [oscalls env_define].
  by env_fields.
Qed.

Lemma generateTasks_registered w conf s :
  generateTasks (registered w conf s) = generateTasks s.
Proof.
  unfold registered. cbn [generateTasks env_define].
  by env_fields.
Qed.

Lemma formatTasks_registered w conf s :
  formatTasks (registered w conf s)
  = formatTasks s
    ++ (if excluded conf "format-go" then [] else ["format-go"])
    ++ (if excluded conf "format-markdown" then [] else ["format-markdown"])
    ++ (if excluded conf "format-yaml" then [] else ["format-yaml"]).
Proof.
  unfold registered. cbn [formatTasks env_define].
  env_fields. by rewrite <- !app_assoc.
Qed.

Lemma lintTasks_registered w conf s :
  lintTasks (registered w conf s)
  = lintTasks s
    ++ (if excluded conf "lint-go" then [] else ["lint-go"])
    ++ (if excluded conf "lint-markdown" then [] else ["lint-markdown"])
    ++ (if excluded conf "lint-yaml" then [] else ["lint-yaml"]).
Proof.
  unfold registered. cbn [lintTasks env_define].
  env_fields. by rewrite <- !app_assoc.
Qed.

Lemma flow_registered_format w conf s :
  flow (registered w conf s) !! "format"
  = Some (formatTask (formatTasks (registered w conf s))).
Proof. unfold registered. flow_lookup. Qed.

Lemma flow_registered_lint w conf s :
  flow (registered w conf s) !! "lint"
  = Some (lintTask (lintTasks (registered w conf s))).
Proof. unfold registered. flow_lookup. Qed.

Lemma flow_registered_generate w conf s :
  flow (registered w conf s) !! "generate"
  = Some (generateTask (generateTasks (registered w conf s))).
Proof. unfold registered. flow_lookup. Qed.

Lemma flow_registered_test w conf s :
  flow (registered w conf s) !! "test" = Some (testTask conf).
Proof. unfold registered. flow_lookup. Qed.

Lemma flow_registered_check w conf s :
  flow (registered w conf s) !! "check" = Some (checkTask "lint" "test").
Proof. unfold registered. flow_lookup. Qed.

Lemma elem_of_leafNames n :
  n ∈ leafNames ↔
  n = "format-go" ∨ n = "lint-go" ∨ n = "format-markdown"
  ∨ n = "lint-markdown" ∨ n = "format-yaml" ∨ n = "lint-yaml".
Proof.
  unfold leafNames, leafCatalog. simpl.
  rewrite !elem_of_cons, elem_of_nil. tauto.
Qed.

(** A leaf name leads to its task when it is not excluded, and to whatever
    the environment held before (nothing, when it was ready) when it is. *)
Lemma flow_registered_leaf w conf s n :
  n ∈ leafNames →
  flow (registered w conf s) !! n
  = if excluded conf n then flow s !! n else leafTask w n.
Proof.
  rewrite elem_of_leafNames.
  intros [-> | [-> | [-> | [-> | [-> | ->] ] ] ] ]; unfold registered; flow_skip;
    destruct (excluded conf _);
    rewrite ?addFormat_skip, ?addLint_skip; flow_lookup; reflexivity.
Qed.

(** *** Membership in the buckets after registration *)

Lemma elem_of_formatTasks_registered w conf s n :
  n ∈ formatTasks (registered w conf s) ↔
  n ∈ formatTasks s
  ∨ (n ∈ ["format-go"; "format-markdown"; "format-yaml"]
     ∧ excluded conf n = false).
Proof.
  rewrite formatTasks_registered, !elem_of_app, !elem_of_cons, elem_of_nil.
  destruct (excluded conf "format-go") eqn:E1,
    (excluded conf "format-markdown") eqn:E2,
    (excluded conf "format-yaml") eqn:E3;
    rewrite ?elem_of_cons, ?elem_of_nil; intuition (subst; congruence).
Qed.

Lemma elem_of_lintTasks_registered w conf s n :
  n ∈ lintTasks (registered w conf s) ↔
  n ∈ lintTasks s
  ∨ (n ∈ ["lint-go"; "lint-markdown"; "lint-yaml"]
     ∧ excluded conf n = false).
Proof.
  rewrite lintTasks_registered, !elem_of_app, !elem_of_cons, elem_of_nil.
  destruct (excluded conf "lint-go") eqn:E1,
    (excluded conf "lint-markdown") eqn:E2,
    (excluded conf "lint-yaml") eqn:E3;
    rewrite ?elem_of_cons, ?elem_of_nil; intuition (subst; congruence).
Qed.

(** *** Registration reads the configuration through seven observations *)

Lemma defineTasksWith_ext w c1 c2 :
  artifactsPath c1 = artifactsPath c2 →
  (∀ n, n ∈ leafNames → excluded c1 n = excluded c2 n) →
  defineTasksWith w c1 = defineTasksWith w c2.
Proof.
  intros Hpath Hex. unfold defineTasksWith, testTask, testAction.
  rewrite Hpath.
  rewrite (Hex "format-go"), (Hex "lint-go"), (Hex "format-markdown"),
    (Hex "lint-markdown"), (Hex "format-yaml"), (Hex "lint-yaml");
    first reflexivity; apply elem_of_leafNames; tauto.
Qed.

(** Names outside the six leaf names can be dropped from the options. *)
Lemma DefineTasks_dropNames w drop opts :
  (∀ n, drop n = true → n ∉ leafNames) →
  DefineTasks w (dropNames drop opts) = DefineTasks w opts.
Proof.
  intros Hdrop. unfold DefineTasks. apply defineTasksWith_ext.
  - by rewrite !resolveConfig_fields, pathsOf_dropNames.
  - intros n Hn. apply eq_true_iff_eq.
    rewrite !excluded_true, !resolveConfig_fields. simpl.
    rewrite elem_of_namesOf_dropNames. split; [tauto|]. intros Hin.
    split; [done|]. destruct (drop n) eqn:E; [|done].
    by apply Hdrop in E.
Qed.

(** *** What one command does to a run *)

Lemma calls_cmd_Exec w cmdLine a :
  calls (cmd_Exec w cmdLine a).2 = calls a ++ [CallRun cmdLine].
Proof. unfold cmd_Exec. by destruct (run_err w cmdLine). Qed.

Lemma commands_cmd_Exec w cmdLine a :
  commands (cmd_Exec w cmdLine a).2 = commands a ++ [cmdLine].
Proof.
  unfold commands. rewrite calls_cmd_Exec. by rewrite omap_app.
Qed.

Lemma leafNames_fresh_in_buckets s n :
  ready s → n ∈ leafNames →
  (n ∉ formatTasks s) ∧ (n ∉ lintTasks s) ∧ (n ∉ generateTasks s).
Proof.
  intros Hready Hn.
  assert (n ∉ bucketed s) as Hout.
  { apply ready_bucketed; [done|]. apply elem_of_app. by left. }
  unfold bucketed in Hout. rewrite !elem_of_app in Hout. tauto.
Qed.

Lemma elem_of_leafCatalog n f :
  (n, f) ∈ leafCatalog ↔
  (f = Format ∧ n ∈ ["format-go"; "format-markdown"; "format-yaml"])
  ∨ (f = Lint ∧ n ∈ ["lint-go"; "lint-markdown"; "lint-yaml"]).
Proof.
  unfold leafCatalog. rewrite !elem_of_cons, !elem_of_nil.
  split.
  - intros H. repeat (destruct H as [[= -> ->]|H]; [tauto|]). done.
  - intros [[-> H]|[-> H]];
      repeat (destruct H as [->|H]; [tauto|]); done.
Qed.

Lemma leafCatalog_leafNames n f : (n, f) ∈ leafCatalog → n ∈ leafNames.
Proof. intros H. unfold leafNames. apply list_elem_of_fmap. by exists (n, f). Qed.

Lemma leafTask_lookup w :
  let targets := golangciTargetsFor (stat_err w "build/go.mod") in
  leafTask w "format-go" = Some (formatGoTask targets)
  ∧ leafTask w "lint-go" = Some (lintGoTask targets)
  ∧ leafTask w "format-markdown" = Some formatMarkdownTask
  ∧ leafTask w "lint-markdown" = Some lintMarkdownTask
  ∧ leafTask w "format-yaml" = Some formatYamlTask
  ∧ leafTask w "lint-yaml" = Some lintYamlTask.
Proof. repeat split; unfold leafTask; repeat case_decide; done. Qed.

(** * The claims *)

(** C6: options are applied one after the other in the order supplied.
    An [ArtifactsPath] option overwrites the path whatever it was, so the
    last one supplied wins; an [ExcludeTasks] option adds its names to the
    excluded ones.  Whether a name is excluded depends only on the set of
    names supplied, so naming a task twice, in one call or in two, is the
    same as naming it once. *)
Theorem options_applied_in_order :
  resolveConfig [] = defaultConfig
  ∧ (∀ opts o, resolveConfig (opts ++ [o]) = apply o (resolveConfig opts))
  ∧ (∀ a c, artifactsPath (apply (ArtifactsPath a) c) = a)
  ∧ (∀ opts, artifactsPath (resolveConfig opts) = List.last (pathsOf opts) "out")
  ∧ (∀ tasks c n,
       excluded (apply (ExcludeTasks tasks) c) n
       = excluded c n || bool_decide (n ∈ tasks))
  ∧ (∀ opts n,
       excluded (resolveConfig opts) n
       = bool_decide (n ∈ (list_to_set (namesOf opts) : gset string)))
  ∧ (∀ tasks c n,
       excluded (apply (ExcludeTasks tasks) (apply (ExcludeTasks tasks) c)) n
       = excluded (apply (ExcludeTasks tasks) c) n)
  ∧ (∀ t tasks c n,
       excluded (apply (ExcludeTasks (t :: t :: tasks)) c) n
       = excluded (apply (ExcludeTasks (t :: tasks)) c) n).
Proof.
  split; [done|]. split; [apply resolveConfig_snoc|]. split; [done|].
  split; [intros opts; by rewrite resolveConfig_fields|].
  split; [apply excluded_apply_ExcludeTasks|].
  split.
  { intros opts n. apply eq_true_iff_eq.
    rewrite excluded_true, bool_decide_eq_true, resolveConfig_fields.
    simpl. by rewrite elem_of_list_to_set. }
  split.
  - intros tasks c n. rewrite !excluded_apply_ExcludeTasks.
    by destruct (excluded c n), (bool_decide (n ∈ tasks)).
  - intros t tasks c n. rewrite !excluded_apply_ExcludeTasks. f_equal.
    apply eq_true_iff_eq. rewrite !bool_decide_eq_true, !elem_of_cons. tauto.
Qed.

(** C7: without options the configuration is the default one, with the
    artifacts path "out" and nothing excluded.  Resolving is a total
    function of the option list, given field by field by the last path and
    the names supplied; an empty path is taken as it is; [DefineTasks] is
    the registration run on the resolved configuration, so a panic can only
    come from the registration. *)
Theorem configuration_resolution_pure :
  resolveConfig [] = {| artifactsPath := "out"; excludeTasks := [] |}
  ∧ (∀ n, excluded (resolveConfig []) n = false)
  ∧ (∀ opts,
       resolveConfig opts
       = {| artifactsPath := List.last (pathsOf opts) "out";
            excludeTasks := namesOf opts |})
  ∧ (∀ opts, artifactsPath (resolveConfig (opts ++ [ArtifactsPath ""])) = "")
  ∧ (∀ w opts s,
       DefineTasks w opts s = defineTasksWith w (resolveConfig opts) s).
Proof.
  split; [done|]. split; [apply excluded_default|].
  split; [apply resolveConfig_fields|]. split; [|done].
  intros opts. by rewrite resolveConfig_snoc.
Qed.

(** C10: an [ArtifactsPath] option leaves the excluded names as they were,
    an [ExcludeTasks] option leaves the artifacts path as it was, and the
    two commute, on a configuration and at the end of an option list. *)
Theorem options_touch_own_field a tasks :
  (∀ c, excludeTasks (apply (ArtifactsPath a) c) = excludeTasks c)
  ∧ (∀ c, artifactsPath (apply (ExcludeTasks tasks) c) = artifactsPath c)
  ∧ (∀ c, apply (ArtifactsPath a) (apply (ExcludeTasks tasks) c)
          = apply (ExcludeTasks tasks) (apply (ArtifactsPath a) c))
  ∧ (∀ opts, resolveConfig (opts ++ [ArtifactsPath a; ExcludeTasks tasks])
             = resolveConfig (opts ++ [ExcludeTasks tasks; ArtifactsPath a])).
Proof.
  split; [done|]. split; [done|]. split; [done|].
  intros opts. unfold resolveConfig. by rewrite !foldl_app.
Qed.

(** C1: on an environment where [DefineTasks] can run, it returns, and a
    leaf task sits in the bucket of its family exactly when it is not
    excluded.  A leaf named by an [ExcludeTasks] option is not registered
    and is in neither bucket, hence in the dependency list of neither
    "format" nor "lint", whose dependencies are the two buckets. *)
Theorem excluded_leaf_absent w opts s :
  ready s →
  ∃ s' fmt lnt,
    DefineTasks w opts s = Ok ((), s')
    ∧ flow s' !! "format" = Some fmt ∧ Deps fmt = formatTasks s'
    ∧ flow s' !! "lint" = Some lnt ∧ Deps lnt = lintTasks s'
    ∧ ∀ n f, (n, f) ∈ leafCatalog →
        (n ∈ bucket f s' ↔ excluded (resolveConfig opts) n = false)
        ∧ (∀ tasks, ExcludeTasks tasks ∈ opts → n ∈ tasks →
             flow s' !! n = None
             ∧ (n ∉ formatTasks s') ∧ (n ∉ lintTasks s')
             ∧ (n ∉ Deps fmt) ∧ (n ∉ Deps lnt)).
Proof.
  intros Hready. set (conf := resolveConfig opts).
  exists (registered w conf s), (formatTask (formatTasks (registered w conf s))),
    (lintTask (lintTasks (registered w conf s))).
  split; [by apply DefineTasks_run|].
  split; [apply flow_registered_format|]. split; [done|].
  split; [apply flow_registered_lint|]. split; [done|].
  intros n f Hnf. pose proof (leafCatalog_leafNames n f Hnf) as Hn.
  destruct (leafNames_fresh_in_buckets s n Hready Hn) as (Hfmt & Hlnt & _).
  split.
  - apply elem_of_leafCatalog in Hnf as [[-> Hin]|[-> Hin]]; unfold bucket.
    + rewrite elem_of_formatTasks_registered. tauto.
    + rewrite elem_of_lintTasks_registered. tauto.
  - intros tasks Hopt Hin.
    assert (excluded conf n = true) as Hex.
    { apply excluded_resolveConfig. eauto. }
    assert (n ∉ formatTasks (registered w conf s)) as Hf.
    { rewrite elem_of_formatTasks_registered. rewrite Hex.
      intros [?|[_ ?]]; done. }
    assert (n ∉ lintTasks (registered w conf s)) as Hl.
    { rewrite elem_of_lintTasks_registered. rewrite Hex.
      intros [?|[_ ?]]; done. }
    split; [|done].
    rewrite flow_registered_leaf, Hex by done.
    apply (ready_names s Hready). apply elem_of_app. by left.
Qed.

(** C2: called without options in a fresh process, [DefineTasks] returns
    and has registered exactly the six leaf tasks and the five meta tasks;
    "format" depends on format-go, format-markdown and format-yaml, in this
    order, and "check" on lint and test. *)
Theorem zero_options_catalogue w :
  ∃ s' fmt chk,
    DefineTasks w [] initialEnv = Ok ((), s')
    ∧ dom (flow s') = list_to_set (leafNames ++ metaNames)
    ∧ flow s' !! "format" = Some fmt
    ∧ Deps fmt = ["format-go"; "format-markdown"; "format-yaml"]
    ∧ flow s' !! "check" = Some chk
    ∧ Deps chk = ["lint"; "test"].
Proof.
  exists (registered w defaultConfig initialEnv),
    (formatTask (formatTasks (registered w defaultConfig initialEnv))),
    (checkTask "lint" "test").
  split; [apply DefineTasks_run, ready_initialEnv|].
  split; [|split; [apply flow_registered_format|
           split; [|split; [apply flow_registered_check|done]]]].
  - apply set_eq. intros n. rewrite elem_of_dom, elem_of_list_to_set.
    destruct (decide (n ∈ leafNames)) as [Hleaf|Hleaf].
    + rewrite (flow_registered_leaf w defaultConfig initialEnv n Hleaf).
      rewrite excluded_default. split.
      * intros _. apply elem_of_app. by left.
      * intros _. apply elem_of_leafNames in Hleaf. unfold leafTask.
        repeat (case_decide; [by eexists|]). tauto.
    + destruct (decide (n ∈ metaNames)) as [Hmeta|Hmeta].
      * split; [intros _; apply elem_of_app; by right|]. intros _.
        unfold metaNames in Hmeta.
        rewrite !elem_of_cons, elem_of_nil in Hmeta.
        destruct Hmeta as [-> | [-> | [-> | [-> | [-> | [] ] ] ] ] ].
        -- rewrite flow_registered_format. by eexists.
        -- rewrite flow_registered_lint. by eexists.
        -- rewrite flow_registered_generate. by eexists.
        -- rewrite flow_registered_test. by eexists.
        -- rewrite flow_registered_check. by eexists.
      * rewrite elem_of_app.
        replace (flow (registered w defaultConfig initialEnv) !! n)
          with (@None Task); [rewrite is_Some_alt; tauto|].
        symmetry. rewrite elem_of_leafNames in Hleaf. unfold metaNames in Hmeta.
        rewrite !elem_of_cons, elem_of_nil in Hmeta.
        unfold registered.
        repeat first
          [ rewrite flow_env_define_ne by (simpl; intros <-; tauto)
          | rewrite flow_addFormat_ne by (simpl; intros <-; tauto)
          | rewrite flow_addLint_ne by (simpl; intros <-; tauto) ].
        apply lookup_empty.
  - cbn [Deps formatTask]. rewrite formatTasks_registered.
    by rewrite !excluded_default.
Qed.

(** C3: registration asks the operating system one thing, whether
    build/go.mod exists, and nothing else.  When the answer is yes the
    command of format-go and the command of lint-go end in the targets
    "./..." and "./build", otherwise in "./..." alone; running either
    action issues that one command and no other call. *)
Theorem go_targets_follow_probe w opts s :
  ready s →
  let targets :=
    if stat_err w "build/go.mod" is None then ["./..."; "./build"]
    else ["./..."] in
  ∃ s',
    DefineTasks w opts s = Ok ((), s')
    ∧ oscalls s' = oscalls s ++ [CallStat "build/go.mod"]
    ∧ (excluded (resolveConfig opts) "format-go" = false →
       ∃ t act,
         flow s' !! "format-go" = Some t ∧ TaskAction t = Some act
         ∧ ∀ w' a,
             calls (act w' a)
             = calls a
               ++ [CallRun
                     ("go run github.com/golangci/golangci-lint/cmd/golangci-lint@"
                      +:+ verGolangCILint +:+ " run --fix --timeout=20m "
                      +:+ strings_Join targets " ")])
    ∧ (excluded (resolveConfig opts) "lint-go" = false →
       ∃ t act,
         flow s' !! "lint-go" = Some t ∧ TaskAction t = Some act
         ∧ ∀ w' a,
             calls (act w' a)
             = calls a
               ++ [CallRun
                     ("go run github.com/golangci/golangci-lint/cmd/golangci-lint@"
                      +:+ verGolangCILint +:+ " run --timeout=20m "
                      +:+ strings_Join targets " ")]).
Proof.
  intros Hready targets. set (conf := resolveConfig opts).
  destruct (leafTask_lookup w) as (Hfg & Hlg & _).
  exists (registered w conf s).
  split; [by apply DefineTasks_run|].
  split; [apply oscalls_registered|].
  assert (golangciTargetsFor (stat_err w "build/go.mod") = targets) as Htg.
  { unfold golangciTargetsFor, targets. by destruct (stat_err w _). }
  split; intros Hex.
  - eexists _, _. rewrite flow_registered_leaf, Hex, Hfg, Htg
      by (apply elem_of_leafNames; tauto).
    repeat split. intros w' a. apply calls_cmd_Exec.
  - eexists _, _. rewrite flow_registered_leaf, Hex, Hlg, Htg
      by (apply elem_of_leafNames; tauto).
    repeat split. intros w' a. apply calls_cmd_Exec.
Qed.

(** C4: the action of "test" first creates the artifacts directory, with
    its parents, at the configured path.  When that fails the run ends
    there, as a value: the task is marked failed, the message carries the
    error, and no command was run.  When it succeeds the one command run
    is go test with the coverage profile at the path joined with
    coverage.txt: dist/coverage.txt for [ArtifactsPath "dist"],
    out/coverage.txt by default. *)
Theorem test_action_uses_artifacts_path w opts s :
  ready s →
  let dir := artifactsPath (resolveConfig opts) in
  let goTest :=
    "go test -coverprofile=" +:+ filepath_Join [dir; "coverage.txt"]
    +:+ " -covermode=atomic -v -timeout=20m ./..." in
  (∃ s' t act,
     DefineTasks w opts s = Ok ((), s')
     ∧ flow s' !! "test" = Some t ∧ TaskAction t = Some act
     ∧ ∀ w' a,
         match mkdirAll_err w' dir perm_0o755 with
         | Some e =>
             act w' a
             = {| failed := true;
                  messages :=
                    messages a ++ ["failed to create out directory: " +:+ e];
                  calls := calls a ++ [CallMkdirAll dir perm_0o755] |}
         | None =>
             act w' a
             = (cmd_Exec w' goTest (issue (CallMkdirAll dir perm_0o755) a)).2
             ∧ calls (act w' a)
               = calls a ++ [CallMkdirAll dir perm_0o755; CallRun goTest]
         end)
  ∧ (∀ opts', artifactsPath (resolveConfig (opts' ++ [ArtifactsPath "dist"]))
              = "dist")
  ∧ filepath_Join ["dist"; "coverage.txt"] = "dist/coverage.txt"
  ∧ filepath_Join [artifactsPath (resolveConfig []); "coverage.txt"]
    = "out/coverage.txt".
Proof.
  intros Hready dir goTest. split; [|split; [|split; reflexivity]].
  - exists (registered w (resolveConfig opts) s),
      (testTask (resolveConfig opts)), (testAction (resolveConfig opts)).
    split; [by apply DefineTasks_run|].
    split; [apply flow_registered_test|]. split; [done|].
    intros w' a. unfold testAction, os_MkdirAll. fold dir.
    destruct (mkdirAll_err w' dir perm_0o755) as [e|]; [done|].
    fold goTest. split; [done|].
    rewrite calls_cmd_Exec. simpl. by rewrite <- app_assoc.
  - intros opts'. by rewrite resolveConfig_snoc.
Qed.

(** C8: every leaf task that is registered is marked as safe to run in
    parallel, and running its action runs two command lines for lint-yaml
    and one for each of the other five, whatever the commands answer. *)
Theorem leaves_parallel_one_or_two_commands w opts s :
  ready s →
  ∃ s',
    DefineTasks w opts s = Ok ((), s')
    ∧ ∀ n, n ∈ leafNames → excluded (resolveConfig opts) n = false →
        ∃ t act,
          flow s' !! n = Some t ∧ Name t = n ∧ Parallel t = true
          ∧ TaskAction t = Some act
          ∧ ∀ w' a,
              length (commands (act w' a))
              = length (commands a)
                + (if decide (n = "lint-yaml") then 2 else 1)
              ∧ length (calls (act w' a))
                = length (calls a)
                  + (if decide (n = "lint-yaml") then 2 else 1).
Proof.
  intros Hready. exists (registered w (resolveConfig opts) s).
  split; [by apply DefineTasks_run|]. intros n Hn Hex.
  rewrite flow_registered_leaf, Hex by done.
  destruct (leafTask_lookup w) as (H1 & H2 & H3 & H4 & H5 & H6).
  apply elem_of_leafNames in Hn
    as [-> | [-> | [-> | [-> | [-> | ->] ] ] ] ];
    eexists _, _; (split; [eassumption|]); (split; [reflexivity|]);
    (split; [reflexivity|]); (split; [reflexivity|]); intros w' a;
    rewrite decide_bool_decide; cbn [bool_decide decide_rel];
    unfold formatGoAction, lintGoAction, formatMarkdownAction,
      lintMarkdownAction, formatYamlAction, lintYamlAction;
    rewrite ?commands_cmd_Exec, ?calls_cmd_Exec, ?length_app;
    simpl; split; lia.
Qed.

(** C5: names that are none of the six leaf names can be taken out of the
    [ExcludeTasks] options without changing anything: on every
    environment [DefineTasks] gives the same result, panic or registry
    and buckets, and where it can run it returns with them in the way. *)
Theorem unknown_names_ignored w drop opts :
  (∀ n, drop n = true → n ∉ leafNames) →
  (∀ s, DefineTasks w opts s = DefineTasks w (dropNames drop opts) s)
  ∧ (∀ s, ready s →
       ∃ s', DefineTasks w opts s = Ok ((), s')
             ∧ DefineTasks w (dropNames drop opts) s = Ok ((), s')).
Proof.
  intros Hdrop. pose proof (DefineTasks_dropNames w drop opts Hdrop) as Heq.
  split.
  - intros s. by rewrite Heq.
  - intros s Hready. exists (registered w (resolveConfig opts) s).
    rewrite Heq. split; by apply DefineTasks_run.
Qed.

(** C9: the five meta tasks are registered whatever the options say.
    Naming them in [ExcludeTasks] changes nothing, be it in an option of
    their own or among the names of the other options: only the six leaf
    registrations ask whether a name is excluded. *)
Theorem meta_tasks_always_registered w opts s :
  ready s →
  (∃ s',
     DefineTasks w opts s = Ok ((), s')
     ∧ ∀ n, n ∈ metaNames → ∃ t, flow s' !! n = Some t ∧ Name t = n)
  ∧ DefineTasks w (ExcludeTasks metaNames :: opts) s = DefineTasks w opts s
  ∧ DefineTasks w (dropNames (λ n, bool_decide (n ∈ metaNames)) opts) s
    = DefineTasks w opts s.
Proof.
  intros Hready.
  assert (∀ n, n ∈ metaNames → n ∉ leafNames) as Hdisjoint.
  { intros n Hmeta Hleaf. apply elem_of_leafNames in Hleaf.
    unfold metaNames in Hmeta. rewrite !elem_of_cons, elem_of_nil in Hmeta.
    intuition (subst; discriminate). }
  split; [|split].
  - exists (registered w (resolveConfig opts) s).
    split; [by apply DefineTasks_run|]. intros n Hn.
    unfold metaNames in Hn. rewrite !elem_of_cons, elem_of_nil in Hn.
    destruct Hn as [-> | [-> | [-> | [-> | [-> | [] ] ] ] ] ].
    + rewrite flow_registered_format. by eexists.
    + rewrite flow_registered_lint. by eexists.
    + rewrite flow_registered_generate. by eexists.
    + rewrite flow_registered_test. by eexists.
    + rewrite flow_registered_check. by eexists.
  - unfold DefineTasks.
    rewrite (defineTasksWith_ext w (resolveConfig (ExcludeTasks metaNames :: opts))
               (resolveConfig opts)); [done| |].
    + by rewrite !resolveConfig_fields.
    + intros n Hn. apply eq_true_iff_eq.
      rewrite !excluded_true, !resolveConfig_fields.
      change (n ∈ metaNames ++ namesOf opts ↔ n ∈ namesOf opts).
      rewrite elem_of_app. split; [|tauto]. intros [Hmeta|?]; [|done].
      by apply Hdisjoint in Hmeta.
  - rewrite DefineTasks_dropNames; [done|].
    intros n Hn. apply Hdisjoint. by apply bool_decide_eq_true in Hn.
Qed.

(** * Beyond the claims *)

(** ** When registration returns and when it panics *)

Lemma bind_panic {X Y} (m : Reg X) (f : X → Reg Y) s e :
  m s = Panic e → (m ≫= f) s = Panic e.
Proof. unfold mbind, Reg_bind. by intros ->. Qed.

Lemma Define_taken task s :
  Name task ≠ "" → is_Some (flow s !! Name task) →
  Define task s = Panic alreadyDefined.
Proof.
  intros Hname Htaken. unfold Define.
  rewrite bool_decide_eq_false_2 by done.
  by rewrite bool_decide_eq_true_2 by done.
Qed.

Lemma addFormat_returns skip task s :
  Name task ≠ "" → Deps task = [] →
  (skip = false → flow s !! Name task = None) →
  (if negb skip then Define task ≫= RegisterFormatTask else mret ()) s
  = Ok ((), addFormat skip task s).
Proof.
  intros Hname Hdeps Hfresh. destruct skip; [done|].
  apply addFormat_run; auto.
Qed.

Lemma addLint_returns skip task s :
  Name task ≠ "" → Deps task = [] →
  (skip = false → flow s !! Name task = None) →
  (if negb skip then Define task ≫= RegisterLintTask else mret ()) s
  = Ok ((), addLint skip task s).
Proof.
  intros Hname Hdeps Hfresh. destruct skip; [done|].
  apply addLint_run; auto.
Qed.

Lemma addFormat_panics task s :
  Name task ≠ "" → is_Some (flow s !! Name task) →
  (if negb false then Define task ≫= RegisterFormatTask else mret ()) s
  = Panic alreadyDefined.
Proof. intros Hname Htaken. simpl. by apply bind_panic, Define_taken. Qed.

Lemma addLint_panics task s :
  Name task ≠ "" → is_Some (flow s !! Name task) →
  (if negb false then Define task ≫= RegisterLintTask else mret ()) s
  = Panic alreadyDefined.
Proof. intros Hname Htaken. simpl. by apply bind_panic, Define_taken. Qed.

Lemma elem_of_namesDefined conf n :
  n ∈ namesDefined conf ↔
  (n ∈ leafNames ∧ excluded conf n = false) ∨ n ∈ metaNames.
Proof.
  unfold namesDefined. rewrite elem_of_app, list_elem_of_filter. tauto.
Qed.

(** Either a leaf is skipped or free, or it is wanted and taken. *)
Lemma leaf_cases (skip : bool) (slot : option Task) :
  (skip = false → slot = None) ∨ (skip = false ∧ is_Some slot).
Proof.
  destruct skip; [by left|]. destruct slot; [right; eauto | by left].
Qed.

Lemma meta_cases (slot : option Task) : slot = None ∨ is_Some slot.
Proof. destruct slot; eauto. Qed.

(** Stepping through [defineTasksWith]: [leaf_step] and [meta_step] either
    close the goal with the panic of a taken name or move past the next
    registration. *)
Ltac taken_name n :=
  rewrite decide_False; [reflexivity|];
  let HF := fresh in
  intros HF; rewrite Forall_forall in HF;
  match goal with
  | Htaken : is_Some (flow _ !! n) |- _ =>
      rewrite HF in Htaken;
      [ by apply is_Some_None in Htaken
      | apply elem_of_namesDefined;
        first [ left; split; [apply elem_of_leafNames; tauto | assumption]
              | right; unfold metaNames; rewrite !elem_of_cons; tauto ] ]
  end.

Ltac leaf_step conf s n run_lemma panic_lemma :=
  let Hfree := fresh "Hfree" in
  let Hex := fresh "Hex" in
  let Htaken := fresh "Htaken" in
  destruct (leaf_cases (excluded conf n) (flow s !! n))
    as [Hfree | [Hex Htaken] ];
  [ erewrite bind_run by (apply run_lemma; [done..|]; flow_skip; exact Hfree)
  | erewrite bind_panic
      by (rewrite Hex; apply panic_lemma; [done|]; flow_skip; exact Htaken);
    taken_name n ].

Ltac meta_step s n deps_tac :=
  let Hfree := fresh "Hfree" in
  let Htaken := fresh "Htaken" in
  destruct (meta_cases (flow s !! n)) as [Hfree | Htaken];
  [ erewrite bind_run
      by (apply Define_run; [done | flow_skip; exact Hfree | deps_tac])
  | erewrite bind_panic
      by (apply Define_taken; [done | flow_skip; exact Htaken]);
    taken_name n ].

(** The whole of [defineTasksWith] on an environment whose bucket handles
    are defined: it returns when the names it defines are free and panics
    on the first taken one otherwise. *)
Lemma defineTasksWith_outcome w conf s :
  handles_defined s →
  defineTasksWith w conf s
  = if decide (Forall (λ n, flow s !! n = None) (namesDefined conf))
    then Ok ((), registered w conf s)
    else Panic alreadyDefined.
Proof.
  intros Hwf. unfold defineTasksWith, registered.
  change (filepath_Join ["build"; "go.mod"]) with "build/go.mod".
  erewrite bind_run by apply os_Stat_run.
  leaf_step conf s "format-go" addFormat_returns addFormat_panics.
  leaf_step conf s "lint-go" addLint_returns addLint_panics.
  leaf_step conf s "format-markdown" addFormat_returns addFormat_panics.
  leaf_step conf s "lint-markdown" addLint_returns addLint_panics.
  leaf_step conf s "format-yaml" addFormat_returns addFormat_panics.
  leaf_step conf s "lint-yaml" addLint_returns addLint_panics.
  erewrite bind_run by apply gets_run.
  meta_step s "format" ltac:(apply handles_defined_format; handles).
  erewrite bind_run by apply gets_run.
  meta_step s "lint" ltac:(apply handles_defined_lint; handles).
  erewrite bind_run by apply gets_run.
  meta_step s "generate" ltac:(apply handles_defined_generate; handles).
  meta_step s "test" ltac:(constructor).
  meta_step s "check" ltac:(repeat constructor; eexists; flow_lookup).
  rewrite decide_True; [reflexivity|].
  apply Forall_forall. intros n Hn. apply elem_of_namesDefined in Hn.
  rewrite elem_of_leafNames in Hn. unfold metaNames in Hn.
  rewrite !elem_of_cons, elem_of_nil in Hn.
  destruct Hn as [ [Hn Hex] | Hn ].
  - repeat (destruct Hn as [-> | Hn]; [auto|]). subst n. auto.
  - repeat (destruct Hn as [-> | Hn]; [auto|]). done.
Qed.

Lemma DefineTasks_outcome w opts s :
  handles_defined s →
  DefineTasks w opts s
  = if decide (Forall (λ n, flow s !! n = None)
                 (namesDefined (resolveConfig opts)))
    then Ok ((), registered w (resolveConfig opts) s)
    else Panic alreadyDefined.
Proof. apply defineTasksWith_outcome. Qed.

(** A run that returned has left the panic-free environment behind, and
    the names it defined were free. *)
Lemma DefineTasks_Ok_inv w opts s s' :
  handles_defined s → DefineTasks w opts s = Ok ((), s') →
  s' = registered w (resolveConfig opts) s
  ∧ Forall (λ n, flow s !! n = None) (namesDefined (resolveConfig opts)).
Proof.
  intros Hwf Hrun. rewrite DefineTasks_outcome in Hrun by done.
  case_decide; [|done]. by injection Hrun as <-.
Qed.

Lemma handles_defined_registered w conf s :
  handles_defined s → handles_defined (registered w conf s).
Proof. intros Hwf. unfold registered. handles. Qed.

Lemma handles_defined_initialEnv : handles_defined initialEnv.
Proof. constructor. Qed.

Lemma handles_defined_callerEnv : handles_defined callerEnv.
Proof.
  apply Forall_singleton. exists callerLintGo. apply lookup_insert_eq.
Qed.

(** *** Names that registration does not define *)

Lemma flow_addFormat_other skip task s n :
  (Name task = n → skip = true) →
  flow (addFormat skip task s) !! n = flow s !! n.
Proof.
  intros Hskip. destruct (decide (Name task = n)) as [Heq|Hne].
  - by rewrite (Hskip Heq).
  - by apply flow_addFormat_ne.
Qed.

Lemma flow_addLint_other skip task s n :
  (Name task = n → skip = true) →
  flow (addLint skip task s) !! n = flow s !! n.
Proof.
  intros Hskip. destruct (decide (Name task = n)) as [Heq|Hne].
  - by rewrite (Hskip Heq).
  - by apply flow_addLint_ne.
Qed.

Lemma flow_registered_other w conf s n :
  n ∉ namesDefined conf → flow (registered w conf s) !! n = flow s !! n.
Proof.
  intros Hn. rewrite elem_of_namesDefined, elem_of_leafNames in Hn.
  unfold metaNames in Hn. rewrite !elem_of_cons, elem_of_nil in Hn.
  assert (∀ m, m ∈ leafNames → m = n → excluded conf m = true) as Hskip.
  { intros m Hm ->. apply elem_of_leafNames in Hm.
    destruct (excluded conf n); [done|]. tauto. }
  unfold registered.
  rewrite !flow_env_define_ne by (simpl; intros <-; tauto).
  repeat first
    [ rewrite flow_addLint_other
        by (simpl; apply Hskip; apply elem_of_leafNames; tauto)
    | rewrite flow_addFormat_other
        by (simpl; apply Hskip; apply elem_of_leafNames; tauto) ].
  reflexivity.
Qed.

(** *** The registry stays in good order *)

Lemma wellformed_env_define task s :
  wellformed s → Forall (λ d, is_Some (flow s !! d)) (Deps task) →
  wellformed (env_define task s).
Proof.
  intros [Hh Hflow] Hdeps.
  assert (∀ d, is_Some (flow s !! d) →
               is_Some (flow (env_define task s) !! d)) as Hmono.
  { intros d Hd. simpl. rewrite lookup_insert_is_Some.
    destruct (decide (Name task = d)); auto. }
  split; [by apply handles_defined_env_define|].
  intros n t Hlook. destruct (decide (Name task = n)) as [Heq|Hne].
  - rewrite (flow_env_define_eq task s n Heq) in Hlook.
    injection Hlook as <-. split; [done|].
    eapply Forall_impl; [exact Hdeps|]. exact Hmono.
  - rewrite flow_env_define_ne in Hlook by done.
    destruct (Hflow n t Hlook) as [Hn Hd]. split; [done|].
    eapply Forall_impl; [exact Hd|]. exact Hmono.
Qed.

Lemma wellformed_env_oscall c s : wellformed s → wellformed (env_oscall c s).
Proof. done. Qed.

Lemma wellformed_addFormat skip task s :
  Deps task = [] → wellformed s → wellformed (addFormat skip task s).
Proof.
  intros Hdeps Hwf. destruct skip; [done|].
  split; [apply handles_defined_addFormat, Hwf|].
  apply (wellformed_env_define task s Hwf). rewrite Hdeps. constructor.
Qed.

Lemma wellformed_addLint skip task s :
  Deps task = [] → wellformed s → wellformed (addLint skip task s).
Proof.
  intros Hdeps Hwf. destruct skip; [done|].
  split; [apply handles_defined_addLint, Hwf|].
  apply (wellformed_env_define task s Hwf). rewrite Hdeps. constructor.
Qed.

Lemma wellformed_registered w conf s :
  wellformed s → wellformed (registered w conf s).
Proof.
  intros Hwf. unfold registered.
  set (s6 := addLint (excluded conf "lint-yaml") _ _).
  assert (wellformed s6) as H6.
  { unfold s6.
    repeat first [ apply wellformed_addLint; [done|]
                 | apply wellformed_addFormat; [done|] ].
    by apply wellformed_env_oscall. }
  clearbody s6.
  set (s7 := env_define (formatTask _) s6).
  assert (wellformed s7) as H7.
  { apply wellformed_env_define; [done|]. apply handles_defined_format, H6. }
  clearbody s7.
  set (s8 := env_define (lintTask _) s7).
  assert (wellformed s8) as H8.
  { apply wellformed_env_define; [done|]. apply handles_defined_lint, H7. }
  set (s9 := env_define (generateTask _) s8).
  assert (wellformed s9) as H9.
  { apply wellformed_env_define; [done|]. apply handles_defined_generate, H8. }
  apply wellformed_env_define.
  - apply wellformed_env_define; [done|]. constructor.
  - unfold s9, s8. repeat constructor; eexists; flow_lookup.
Qed.

Lemma wellformed_initialEnv : wellformed initialEnv.
Proof.
  split; [constructor|]. intros n t Hlook.
  unfold initialEnv in Hlook. cbn [flow] in Hlook.
  by rewrite lookup_empty in Hlook.
Qed.

Lemma filter_not_excluded conf a b c :
  filter (λ n, excluded conf n = false) [a; b; c]
  = (if excluded conf a then [] else [a])
    ++ (if excluded conf b then [] else [b])
    ++ (if excluded conf c then [] else [c]).
Proof.
  rewrite !filter_cons, filter_nil.
  destruct (excluded conf a), (excluded conf b), (excluded conf c);
    repeat case_decide; done.
Qed.

(** ** Properties of [DefineTasks] on any process state *)

(** X1: on an environment whose bucket handles are defined tasks,
    [DefineTasks] returns when every name it is about to define (the leaf
    names not excluded and the five meta names) is free, and panics with
    the duplicate-name message of [goyek.Define] as soon as one of them is
    taken.  A leaf name that is excluded may be taken. *)
Theorem DefineTasks_returns_iff_names_free w opts s :
  handles_defined s →
  (Forall (λ n, flow s !! n = None) (namesDefined (resolveConfig opts)) →
   ∃ s', DefineTasks w opts s = Ok ((), s'))
  ∧ (Exists (λ n, is_Some (flow s !! n)) (namesDefined (resolveConfig opts)) →
     DefineTasks w opts s = Panic alreadyDefined).
Proof.
  intros Hwf. rewrite DefineTasks_outcome by done. split.
  - intros Hfree. rewrite decide_True by done. eauto.
  - intros Htaken. rewrite decide_False; [done|]. intros Hfree.
    apply Exists_exists in Htaken as (n & Hn & Hsome).
    rewrite Forall_forall in Hfree. rewrite (Hfree n Hn) in Hsome.
    by apply is_Some_None in Hsome.
Qed.

(** X2: [DefineTasks] can be called once.  After a call that returned,
    every further call panics with the duplicate-name message, whatever
    its options and whatever the file system looks like. *)
Theorem DefineTasks_twice_panics w opts s s' :
  handles_defined s →
  DefineTasks w opts s = Ok ((), s') →
  ∀ w' opts', DefineTasks w' opts' s' = Panic alreadyDefined.
Proof.
  intros Hwf Hrun w' opts'.
  destruct (DefineTasks_Ok_inv w opts s s' Hwf Hrun) as [-> _].
  rewrite DefineTasks_outcome by by apply handles_defined_registered.
  rewrite decide_False; [done|]. intros Hfree.
  rewrite Forall_forall in Hfree.
  assert (flow (registered w (resolveConfig opts) s) !! "format" = None)
    as Hnone.
  { apply Hfree, elem_of_namesDefined. right.
    unfold metaNames. rewrite !elem_of_cons. tauto. }
  by rewrite flow_registered_format in Hnone.
Qed.

(** X3: a call that returns adds to the process state and takes nothing
    away.  Tasks the caller defined are still there, among them a task
    defined under an excluded leaf name; every name outside the ones being
    defined leads where it led before; the format and lint buckets keep
    their handles in front and gain the leaves not excluded, in catalogue
    order; the generate bucket is untouched; and the three aggregate tasks
    depend on the buckets as they stand, the caller's handles included. *)
Theorem DefineTasks_only_adds w opts s s' :
  handles_defined s →
  DefineTasks w opts s = Ok ((), s') →
  let conf := resolveConfig opts in
  (∀ n t, flow s !! n = Some t → flow s' !! n = Some t)
  ∧ (∀ n, n ∉ namesDefined conf → flow s' !! n = flow s !! n)
  ∧ formatTasks s'
    = formatTasks s
      ++ filter (λ n, excluded conf n = false)
           ["format-go"; "format-markdown"; "format-yaml"]
  ∧ lintTasks s'
    = lintTasks s
      ++ filter (λ n, excluded conf n = false)
           ["lint-go"; "lint-markdown"; "lint-yaml"]
  ∧ generateTasks s' = generateTasks s
  ∧ flow s' !! "format" = Some (formatTask (formatTasks s'))
  ∧ flow s' !! "lint" = Some (lintTask (lintTasks s'))
  ∧ flow s' !! "generate" = Some (generateTask (generateTasks s)).
Proof.
  intros Hwf Hrun conf.
  destruct (DefineTasks_Ok_inv w opts s s' Hwf Hrun) as [-> Hfree].
  fold conf in Hfree |- *. rewrite Forall_forall in Hfree.
  split; [|split; [apply flow_registered_other|]].
  - intros n t Hlook. rewrite flow_registered_other; [done|].
    intros Hn. apply Hfree in Hn. congruence.
  - rewrite !filter_not_excluded.
    split; [apply formatTasks_registered|].
    split; [apply lintTasks_registered|].
    split; [apply generateTasks_registered|].
    split; [apply flow_registered_format|].
    split; [apply flow_registered_lint|].
    rewrite flow_registered_generate. by rewrite generateTasks_registered.
Qed.

(** X4: [DefineTasks] keeps the registry in good order.  When every task
    was stored under its own name with all its dependencies defined, and
    every bucket handle was a defined task, the same holds after a call
    that returned: the eleven tasks depend on defined tasks only. *)
Theorem DefineTasks_keeps_wellformed w opts s s' :
  wellformed s →
  DefineTasks w opts s = Ok ((), s') →
  wellformed s'.
Proof.
  intros Hwf Hrun.
  destruct (DefineTasks_Ok_inv w opts s s' (proj1 Hwf) Hrun) as [-> _].
  by apply wellformed_registered.
Qed.

(** ** How the options reach the registration *)

Lemma namesDefined_defined w conf s n :
  n ∈ namesDefined conf → is_Some (flow (registered w conf s) !! n).
Proof.
  rewrite elem_of_namesDefined. intros [ [Hleaf Hex] | Hmeta ].
  - rewrite flow_registered_leaf, Hex by done.
    apply elem_of_leafNames in Hleaf. unfold leafTask.
    repeat (case_decide; [by eexists|]). tauto.
  - unfold metaNames in Hmeta. rewrite !elem_of_cons, elem_of_nil in Hmeta.
    destruct Hmeta as [-> | [-> | [-> | [-> | [-> | [] ] ] ] ] ].
    + rewrite flow_registered_format. by eexists.
    + rewrite flow_registered_lint. by eexists.
    + rewrite flow_registered_generate. by eexists.
    + rewrite flow_registered_test. by eexists.
    + rewrite flow_registered_check. by eexists.
Qed.

Lemma pathsOf_app opts1 opts2 :
  pathsOf (opts1 ++ opts2) = pathsOf opts1 ++ pathsOf opts2.
Proof. unfold pathsOf. apply omap_app. Qed.

Lemma namesOf_app opts1 opts2 :
  namesOf (opts1 ++ opts2) = namesOf opts1 ++ namesOf opts2.
Proof. unfold namesOf. apply bind_app. Qed.

Lemma last_app_cons {A} (l1 l2 : list A) x d :
  List.last (l1 ++ x :: l2) d = List.last (x :: l2) d.
Proof.
  induction l1 as [|y l1 IH]; [done|].
  rewrite <- IH. simpl. by destruct (l1 ++ x :: l2) eqn:E; [destruct l1|].
Qed.

(** X5: [DefineTasks] reads its options through two things only, the
    last artifacts path and which of the six leaf names are excluded.
    Option lists that agree on both give the same result on every process
    state, however the options are ordered, split or repeated. *)
Theorem DefineTasks_reads_path_and_exclusions w opts1 opts2 :
  List.last (pathsOf opts1) "out" = List.last (pathsOf opts2) "out" →
  (∀ n, n ∈ leafNames → (n ∈ namesOf opts1 ↔ n ∈ namesOf opts2)) →
  ∀ s, DefineTasks w opts1 s = DefineTasks w opts2 s.
Proof.
  intros Hpath Hnames s. unfold DefineTasks.
  rewrite (defineTasksWith_ext w (resolveConfig opts1) (resolveConfig opts2));
    [done| |].
  - by rewrite !resolveConfig_fields.
  - intros n Hn. apply eq_true_iff_eq.
    rewrite !excluded_true, !resolveConfig_fields. simpl. by apply Hnames.
Qed.

(** X6: options can only take leaf tasks away.  A name excluded by an
    option list stays excluded when options are put before or after it,
    and when [DefineTasks] returns with the shorter list it returns with
    the longer one too, with no task and no bucket handle that the
    shorter list did not give. *)
Theorem more_options_fewer_tasks w opts pre post s s1 :
  handles_defined s →
  DefineTasks w opts s = Ok ((), s1) →
  (∀ n, excluded (resolveConfig opts) n = true →
        excluded (resolveConfig (pre ++ opts ++ post)) n = true)
  ∧ ∃ s2,
      DefineTasks w (pre ++ opts ++ post) s = Ok ((), s2)
      ∧ dom (flow s2) ⊆ dom (flow s1)
      ∧ formatTasks s2 ⊆ formatTasks s1
      ∧ lintTasks s2 ⊆ lintTasks s1.
Proof.
  intros Hwf Hrun.
  set (c1 := resolveConfig opts). set (c2 := resolveConfig (pre ++ opts ++ post)).
  assert (∀ n, excluded c1 n = true → excluded c2 n = true) as Hmono.
  { intros n. unfold c1, c2. rewrite !excluded_true, !resolveConfig_fields.
    simpl. rewrite !namesOf_app, !elem_of_app. tauto. }
  assert (∀ n, n ∈ namesDefined c2 → n ∈ namesDefined c1) as Hsub.
  { intros n. rewrite !elem_of_namesDefined.
    intros [ [Hleaf Hex] | Hmeta ]; [left|by right]. split; [done|].
    destruct (excluded c1 n) eqn:E; [|done]. apply Hmono in E. congruence. }
  split; [exact Hmono|].
  destruct (DefineTasks_Ok_inv w opts s s1 Hwf Hrun) as [-> Hfree].
  fold c1 in Hfree |- *. rewrite Forall_forall in Hfree.
  exists (registered w c2 s). split.
  { rewrite DefineTasks_outcome by done. fold c2.
    rewrite decide_True; [done|]. apply Forall_forall. auto. }
  split; [|split].
  - intros n. rewrite !elem_of_dom. intros Hn.
    destruct (decide (n ∈ namesDefined c2)) as [Hin|Hout].
    + by apply namesDefined_defined, Hsub.
    + rewrite flow_registered_other in Hn by done.
      destruct (decide (n ∈ namesDefined c1)) as [Hin1|Hout1].
      * by apply namesDefined_defined.
      * by rewrite flow_registered_other.
  - intros n. rewrite !elem_of_formatTasks_registered.
    intros [?|[? Hex] ]; [by left|right]. split; [done|].
    destruct (excluded c1 n) eqn:E; [|done]. apply Hmono in E. congruence.
  - intros n. rewrite !elem_of_lintTasks_registered.
    intros [?|[? Hex] ]; [by left|right]. split; [done|].
    destruct (excluded c1 n) eqn:E; [|done]. apply Hmono in E. congruence.
Qed.

(** X7: how options combine.  One [ExcludeTasks] with two runs of names
    is the same as two [ExcludeTasks] in a row, an [ExcludeTasks] without
    names can be left out, and an [ArtifactsPath] directly followed by
    another one is dead; each anywhere in an option list. *)
Theorem options_compose pre post :
  (∀ a b, resolveConfig (pre ++ ExcludeTasks (a ++ b) :: post)
          = resolveConfig (pre ++ ExcludeTasks a :: ExcludeTasks b :: post))
  ∧ resolveConfig (pre ++ ExcludeTasks [] :: post) = resolveConfig (pre ++ post)
  ∧ (∀ p q, resolveConfig (pre ++ ArtifactsPath p :: ArtifactsPath q :: post)
            = resolveConfig (pre ++ ArtifactsPath q :: post)).
Proof.
  split; [|split].
  - intros a b. rewrite !resolveConfig_fields, !pathsOf_app, !namesOf_app.
    f_equal. unfold namesOf. rewrite !bind_cons. by rewrite <- !app_assoc.
  - by rewrite !resolveConfig_fields, !pathsOf_app, !namesOf_app.
  - intros p q. rewrite !resolveConfig_fields, !pathsOf_app, !namesOf_app.
    f_equal. unfold pathsOf. simpl.
    rewrite !last_app_cons. done.
Qed.

(** *** The artifacts path and the probe *)

Lemma registered_same_exclusions w c1 c2 s :
  excludeTasks c1 = excludeTasks c2 →
  (∀ n, n ≠ "test" →
        flow (registered w c1 s) !! n = flow (registered w c2 s) !! n)
  ∧ formatTasks (registered w c1 s) = formatTasks (registered w c2 s)
  ∧ lintTasks (registered w c1 s) = lintTasks (registered w c2 s)
  ∧ namesDefined c1 = namesDefined c2.
Proof.
  intros Heq.
  assert (∀ n, excluded c1 n = excluded c2 n) as Hex.
  { intros n. unfold excluded. by rewrite Heq. }
  split; [|split; [|split] ].
  - intros n Hn. unfold registered. rewrite !Hex.
    destruct (decide ("check" = n)) as [<-|Hcheck].
    + by rewrite !(flow_env_define_eq _ _ "check").
    + rewrite !(flow_env_define_ne (checkTask _ _)) by done.
      by rewrite !(flow_env_define_ne (testTask _)) by (simpl; congruence).
  - by rewrite !formatTasks_registered, !Hex.
  - by rewrite !lintTasks_registered, !Hex.
  - unfold namesDefined. f_equal. apply list_filter_iff. intros n.
    by rewrite Hex.
Qed.

(** X8: the artifacts path reaches the "test" task and nothing else.
    Two option lists with the same excluded names return together, and
    what they leave behind differs at most in the task stored under
    "test": every other name, the three buckets and the probe are the
    same. *)
Theorem artifacts_path_only_reaches_test w opts1 opts2 s s1 :
  handles_defined s →
  namesOf opts1 = namesOf opts2 →
  DefineTasks w opts1 s = Ok ((), s1) →
  ∃ s2,
    DefineTasks w opts2 s = Ok ((), s2)
    ∧ (∀ n, n ≠ "test" → flow s2 !! n = flow s1 !! n)
    ∧ formatTasks s2 = formatTasks s1
    ∧ lintTasks s2 = lintTasks s1
    ∧ generateTasks s2 = generateTasks s1
    ∧ oscalls s2 = oscalls s1
    ∧ flow s1 !! "test" = Some (testTask (resolveConfig opts1))
    ∧ flow s2 !! "test" = Some (testTask (resolveConfig opts2)).
Proof.
  intros Hwf Hnames Hrun.
  destruct (DefineTasks_Ok_inv w opts1 s s1 Hwf Hrun) as [-> Hfree].
  assert (excludeTasks (resolveConfig opts2) = excludeTasks (resolveConfig opts1))
    as Heq by (by rewrite !resolveConfig_fields).
  destruct (registered_same_exclusions w _ _ s Heq) as (Hflow & Hfmt & Hlnt & Hdef).
  exists (registered w (resolveConfig opts2) s). split.
  { rewrite DefineTasks_outcome by done. rewrite Hdef.
    by rewrite decide_True. }
  split; [exact Hflow|]. split; [exact Hfmt|]. split; [exact Hlnt|].
  split; [by rewrite !generateTasks_registered|].
  split; [by rewrite !oscalls_registered|].
  split; apply flow_registered_test.
Qed.

(** X9: of the answer to the probe only one bit is used, whether
    [os.Stat] returned an error; which error is of no consequence.  Two
    file systems that agree on that bit give the same result, and when
    format-go and lint-go are both excluded any two file systems do. *)
Theorem probe_answer_is_one_bit w1 w2 opts s :
  (stat_err w1 "build/go.mod" = None ↔ stat_err w2 "build/go.mod" = None)
  ∨ (excluded (resolveConfig opts) "format-go" = true
     ∧ excluded (resolveConfig opts) "lint-go" = true) →
  DefineTasks w1 opts s = DefineTasks w2 opts s.
Proof.
  intros Hcase. unfold DefineTasks, defineTasksWith.
  change (filepath_Join ["build"; "go.mod"]) with "build/go.mod".
  rewrite (bind_run _ _ _ _ _ (os_Stat_run w1 "build/go.mod" s)).
  rewrite (bind_run _ _ _ _ _ (os_Stat_run w2 "build/go.mod" s)).
  destruct Hcase as [Hbit | [Hfmt Hlnt] ].
  - assert (golangciTargetsFor (stat_err w1 "build/go.mod")
            = golangciTargetsFor (stat_err w2 "build/go.mod")) as ->; [|done].
    unfold golangciTargetsFor.
    destruct (stat_err w1 "build/go.mod"), (stat_err w2 "build/go.mod");
      try done;
      [ pose proof (proj2 Hbit eq_refl) | pose proof (proj1 Hbit eq_refl) ];
      done.
  - rewrite Hfmt, Hlnt. reflexivity.
Qed.

(** ** What running the tasks does *)





(** ** The dependency graph *)

Lemma depends_on_inv m a c :
  depends_on m a c →
  ∃ t b, m !! a = Some t ∧ b ∈ Deps t ∧ (b = c ∨ depends_on m b c).
Proof. intros [? ? t Ht Hb | ? b ? t Ht Hb Hrest]; eauto 6. Qed.

Lemma depends_on_no_deps m a c t :
  m !! a = Some t → Deps t = [] → ¬ depends_on m a c.
Proof.
  intros Ht Hdeps Hdep.
  apply depends_on_inv in Hdep as (t' & b & Ht' & Hb & _).
  rewrite Ht in Ht'. injection Ht' as <-. rewrite Hdeps in Hb.
  by apply elem_of_nil in Hb.
Qed.

(** X11: in a fresh process "check" runs the linters and the tests and
    nothing else.  The tasks it depends on, directly or through other
    tasks, are "lint", "test" and the lint leaves that are not excluded;
    no format task and no "generate" is among them. *)
Theorem check_depends_on_lint_and_test w opts :
  ∃ s',
    DefineTasks w opts initialEnv = Ok ((), s')
    ∧ ∀ b, depends_on (flow s') "check" b ↔
           b = "lint" ∨ b = "test"
           ∨ (b ∈ ["lint-go"; "lint-markdown"; "lint-yaml"]
              ∧ excluded (resolveConfig opts) b = false).
Proof.
  set (conf := resolveConfig opts).
  exists (registered w conf initialEnv).
  split; [apply DefineTasks_run, ready_initialEnv|].
  set (s' := registered w conf initialEnv).
  assert (∀ b, b ∈ lintTasks s' ↔
               b ∈ ["lint-go"; "lint-markdown"; "lint-yaml"]
               ∧ excluded conf b = false) as Hbucket.
  { intros b. unfold s'. rewrite elem_of_lintTasks_registered.
    simpl. rewrite elem_of_nil. tauto. }
  assert (∀ b c, b ∈ lintTasks s' → ¬ depends_on (flow s') b c) as Hleaf.
  { intros b c Hb. apply Hbucket in Hb as [Hb Hex].
    assert (b ∈ leafNames) as Hin.
    { apply elem_of_leafNames. rewrite !elem_of_cons, elem_of_nil in Hb. tauto. }
    destruct (leafTask_lookup w) as (_ & H2 & _ & H4 & _ & H6).
    rewrite !elem_of_cons, elem_of_nil in Hb.
    destruct Hb as [-> | [-> | [-> | [] ] ] ];
      eapply depends_on_no_deps;
      try (unfold s'; rewrite flow_registered_leaf, Hex by done; eassumption);
      reflexivity. }
  assert (∀ c, depends_on (flow s') "lint" c → c ∈ lintTasks s') as Hlint.
  { intros c Hdep. apply depends_on_inv in Hdep as (t & b & Ht & Hb & Hrest).
    unfold s' in Ht. rewrite flow_registered_lint in Ht. injection Ht as <-.
    simpl in Hb. destruct Hrest as [<- | Hrest]; [done|].
    by apply Hleaf in Hrest. }
  intros b. split.
  - intros Hdep. apply depends_on_inv in Hdep as (t & b' & Ht & Hb & Hrest).
    unfold s' in Ht. rewrite flow_registered_check in Ht. injection Ht as <-.
    simpl in Hb. rewrite !elem_of_cons, elem_of_nil in Hb.
    destruct Hb as [-> | [-> | [] ] ].
    + destruct Hrest as [<- | Hrest]; [by left|].
      right. right. by apply Hbucket, Hlint.
    + destruct Hrest as [<- | Hrest]; [right; by left|].
      exfalso. revert Hrest.
      eapply depends_on_no_deps; [apply flow_registered_test | reflexivity].
  - intros [-> | [-> | Hb] ].
    + eapply depends_direct; [apply flow_registered_check|].
      simpl. rewrite !elem_of_cons. tauto.
    + eapply depends_direct; [apply flow_registered_check|].
      simpl. rewrite !elem_of_cons. tauto.
    + eapply depends_through; [apply flow_registered_check| |].
      * simpl. apply elem_of_cons. by left.
      * eapply depends_direct; [apply flow_registered_lint|].
        simpl. by apply Hbucket.
Qed.

(** ** Where the coverage profile goes *)

Lemma list_ascii_of_string_app (a b : string) :
  String.list_ascii_of_string (a +:+ b)
  = String.list_ascii_of_string a ++ String.list_ascii_of_string b.
Proof. induction a as [|c a IH]; simpl; [done|]. by rewrite IH. Qed.

Lemma string_of_list_ascii_app (l1 l2 : list ascii) :
  String.string_of_list_ascii (l1 ++ l2)
  = String.string_of_list_ascii l1 +:+ String.string_of_list_ascii l2.
Proof. induction l1 as [|c l1 IH]; simpl; [done|]. by rewrite IH. Qed.

Lemma is_slash_false c : slash ≠ c → is_slash c = false.
Proof. intros Hc. unfold is_slash. by apply Ascii.eqb_neq. Qed.

Lemma is_dot_true c : is_dot c = true → c = dot.
Proof. unfold is_dot. apply Ascii.eqb_eq. Qed.

(** While an element is being copied, the bytes up to the next separator
    go to the buffer as they are. *)
Lemma clean_loop_copy rooted l rest out dotdot :
  slash ∉ l →
  clean_loop rooted (l ++ rest) true out dotdot
  = clean_loop rooted rest true (rev l ++ out) dotdot.
Proof.
  revert out. induction l as [|c l IH]; intros out Hl; [done|].
  apply not_elem_of_cons in Hl as [Hc Hl]. simpl.
  rewrite is_slash_false by done. rewrite IH by done.
  by rewrite <- app_assoc.
Qed.

(** The first byte of a plain first element starts the copy. *)
Lemma clean_loop_plain_start c tl rest :
  slash ∉ c :: tl → c :: tl ≠ [dot] → c :: tl ≠ [dot; dot] →
  clean_loop false (c :: tl ++ slash :: rest) false [] 0
  = clean_loop false (tl ++ slash :: rest) true [c] 0.
Proof.
  intros Hslash Hdot Hdotdot.
  apply not_elem_of_cons in Hslash as [Hc Htl]. simpl.
  rewrite (is_slash_false c Hc).
  destruct (is_dot c) eqn:Ec; simpl.
  - apply is_dot_true in Ec as ->.
    destruct tl as [|c2 tl2]; [done|]. simpl.
    apply not_elem_of_cons in Htl as [Hc2 Htl2].
    rewrite (is_slash_false c2 Hc2).
    destruct (is_dot c2) eqn:Ec2; simpl; [|done].
    apply is_dot_true in Ec2 as ->.
    destruct tl2 as [|c3 tl3]; [done|]. simpl.
    apply not_elem_of_cons in Htl2 as [Hc3 _].
    by rewrite (is_slash_false c3 Hc3).
  - by destruct (tl ++ slash :: rest).
Qed.

(** After a first element, a second one that does not start with a dot
    is appended behind one separator, whether one or two separators
    precede it. *)
Lemma clean_loop_second fc ftl c out :
  slash ∉ fc :: ftl → is_dot fc = false →
  let done := rev (fc :: ftl) ++ slash :: c :: out in
  clean_loop false (slash :: fc :: ftl) true (c :: out) 0 = done
  ∧ clean_loop false (slash :: slash :: fc :: ftl) true (c :: out) 0 = done.
Proof.
  intros Hslash Hdot done.
  apply not_elem_of_cons in Hslash as [Hfc Hftl].
  assert (clean_loop false (fc :: ftl) false (c :: out) 0 = done) as Hgo.
  { cbn [clean_loop]. rewrite (is_slash_false fc Hfc), Hdot.
    cbn [andb length Nat.eqb negb orb].
    assert (clean_loop false ftl true (fc :: slash :: c :: out) 0 = done)
      as Hcopy.
    { rewrite <- (app_nil_r ftl) at 1. rewrite clean_loop_copy by done.
      unfold done. simpl. by rewrite <- app_assoc. }
    by destruct ftl. }
  split.
  - cbn [clean_loop]. unfold is_slash at 1. rewrite Ascii.eqb_refl. exact Hgo.
  - cbn [clean_loop]. unfold is_slash at 1. rewrite Ascii.eqb_refl.
    unfold is_slash at 1. rewrite Ascii.eqb_refl. exact Hgo.
Qed.

Lemma filepath_Clean_plain d sep :
  plain_dir d → sep = "/" ∨ sep = "//" →
  filepath_Clean (d +:+ sep +:+ "coverage.txt") = d +:+ "/coverage.txt".
Proof.
  intros (Hne & Hdot & Hdotdot & Hslash) Hsep.
  destruct d as [|c d]; [done|].
  set (tl := String.list_ascii_of_string d).
  change (slash ∉ c :: tl) in Hslash.
  apply not_elem_of_cons in Hslash as [Hc Htl].
  assert (c :: tl ≠ [dot]) as Hdot'.
  { intros [= -> Hnil]. apply Hdot. f_equal. unfold tl in Hnil.
    destruct d; [done|discriminate]. }
  assert (c :: tl ≠ [dot; dot]) as Hdotdot'.
  { intros [= -> Hone]. apply Hdotdot. f_equal. unfold tl in Hone.
    destruct d as [|c2 d]; [discriminate|]. injection Hone as -> Hnil.
    f_equal. destruct d; [done|discriminate]. }
  remember (String.list_ascii_of_string "coverage.txt") as cov eqn:Hcov.
  assert (∃ fc ftl, cov = fc :: ftl ∧ (slash ∉ fc :: ftl) ∧ is_dot fc = false)
    as (fc & ftl & Hsplit & Hfslash & Hfdot).
  { subst cov. eexists _, _. split; [reflexivity|]. split; [|reflexivity].
    rewrite !not_elem_of_cons. repeat split; try discriminate.
    apply not_elem_of_nil. }
  assert (∃ c' out', rev tl ++ [c] = c' :: out') as (c' & out' & Hout).
  { destruct (rev tl); simpl; eauto. }
  destruct (clean_loop_second fc ftl c' out' Hfslash Hfdot) as [H1 H2].
  assert (String.list_ascii_of_string (String c d +:+ sep +:+ "coverage.txt")
          = c :: tl ++ String.list_ascii_of_string sep ++ cov) as Hlist.
  { rewrite !list_ascii_of_string_app. by subst cov. }
  assert (String c d +:+ "/coverage.txt"
          = String.string_of_list_ascii ((c :: tl) ++ slash :: cov)) as Hback.
  { rewrite string_of_list_ascii_app. unfold tl. subst cov.
    change (c :: String.list_ascii_of_string d)
      with (String.list_ascii_of_string (String c d)).
    change (slash :: String.list_ascii_of_string "coverage.txt")
      with (String.list_ascii_of_string "/coverage.txt").
    by rewrite !String.string_of_list_ascii_of_string. }
  unfold filepath_Clean. rewrite Hlist, Hback, (is_slash_false c Hc).
  assert (clean_loop false (c :: tl ++ String.list_ascii_of_string sep ++ cov)
            false [] 0
          = rev cov ++ slash :: rev tl ++ [c]) as ->.
  { rewrite Hsplit, Hout.
    destruct Hsep as [-> | ->].
    - change (String.list_ascii_of_string "/" ++ ?l) with (slash :: l).
      rewrite clean_loop_plain_start
        by (done || (apply not_elem_of_cons; by split)).
      rewrite clean_loop_copy, Hout by done. exact H1.
    - change (String.list_ascii_of_string "//" ++ ?l) with (slash :: slash :: l).
      rewrite (clean_loop_plain_start c tl (slash :: fc :: ftl))
        by (done || (apply not_elem_of_cons; by split)).
      rewrite clean_loop_copy, Hout by done. exact H2. }
  assert (rev (rev cov ++ slash :: rev tl ++ [c]) = (c :: tl) ++ slash :: cov)
    as Hrev.
  { rewrite rev_app_distr. simpl. rewrite rev_app_distr, !rev_involutive.
    simpl. by rewrite <- app_assoc. }
  rewrite <- Hrev. by destruct (rev cov ++ slash :: rev tl ++ [c]) eqn:E;
    [destruct (rev cov)|].
Qed.

Lemma string_append_assoc (a b c : string) : (a +:+ b) +:+ c = a +:+ b +:+ c.
Proof.
  induction a as [|x a IH]; [done|].
  change (String x ((a +:+ b) +:+ c) = String x (a +:+ b +:+ c)). by f_equal.
Qed.

Lemma filepath_Join_plain d :
  plain_dir d →
  filepath_Join [d; "coverage.txt"] = d +:+ "/coverage.txt"
  ∧ filepath_Join [d +:+ "/"; "coverage.txt"] = d +:+ "/coverage.txt".
Proof.
  intros Hplain. pose proof Hplain as (Hne & _).
  destruct d as [|c d]; [done|]. split.
  - cbn [filepath_Join String.eqb strings_Join].
    by apply filepath_Clean_plain; [|left].
  - cbn [filepath_Join String.eqb strings_Join String.append].
    change (String c (d +:+ "/")) with (String c d +:+ "/").
    rewrite string_append_assoc.
    change ("/" +:+ "/" +:+ "coverage.txt") with ("//" +:+ "coverage.txt").
    by apply filepath_Clean_plain; [|right].
Qed.

(** X12: for an artifacts path that is a plain directory name, with or
    without a separator at its end, the "test" task creates the directory
    under the path as given and, when that succeeds, runs go test with
    the coverage profile at the name followed by "/coverage.txt", and does
    nothing else. *)
Theorem coverage_beside_plain_dir w opts s s' d :
  handles_defined s →
  DefineTasks w opts s = Ok ((), s') →
  plain_dir d →
  let dir := artifactsPath (resolveConfig opts) in
  dir = d ∨ dir = d +:+ "/" →
  ∃ t act,
    flow s' !! "test" = Some t ∧ TaskAction t = Some act
    ∧ ∀ w' a,
        mkdirAll_err w' dir perm_0o755 = None →
        calls (act w' a)
        = calls a
          ++ [CallMkdirAll dir perm_0o755;
              CallRun ("go test -coverprofile=" +:+ d +:+ "/coverage.txt"
                       +:+ " -covermode=atomic -v -timeout=20m ./...")].
Proof.
  intros Hwf Hrun Hplain dir Hdir.
  destruct (DefineTasks_Ok_inv w opts s s' Hwf Hrun) as [-> _].
  exists (testTask (resolveConfig opts)), (testAction (resolveConfig opts)).
  split; [apply flow_registered_test|]. split; [done|].
  intros w' a Hmk. unfold testAction, os_MkdirAll. fold dir. rewrite Hmk.
  rewrite calls_cmd_Exec. cbn [calls issue]. rewrite <- app_assoc.
  destruct (filepath_Join_plain d Hplain) as [H1 H2].
  assert (filepath_Join [dir; "coverage.txt"] = d +:+ "/coverage.txt") as ->.
  { by destruct Hdir as [Hd | Hd]; rewrite Hd. }
  by rewrite string_append_assoc.
Qed.

(** ** The names in the registry *)

(** X13: after a call that returned, the registry holds the names it
    held before and the names being defined, no other.  When all six leaf
    names are excluded these are the five meta names, the format and lint
    buckets are as the caller left them, and "format" and "lint" are
    defined all the same, with whatever the buckets held as their
    dependencies: nothing, in a process that put nothing there. *)
Theorem registers_exactly_names_defined w opts s s' :
  handles_defined s →
  DefineTasks w opts s = Ok ((), s') →
  let conf := resolveConfig opts in
  dom (flow s') = dom (flow s) ∪ list_to_set (namesDefined conf)
  ∧ ((∀ n, n ∈ leafNames → excluded conf n = true) →
     namesDefined conf = metaNames
     ∧ flow s' !! "format" = Some (formatTask (formatTasks s))
     ∧ flow s' !! "lint" = Some (lintTask (lintTasks s))).
Proof.
  intros Hwf Hrun conf.
  destruct (DefineTasks_Ok_inv w opts s s' Hwf Hrun) as [-> _]. fold conf.
  split.
  - apply set_eq. intros n.
    rewrite elem_of_union, !elem_of_dom, elem_of_list_to_set.
    destruct (decide (n ∈ namesDefined conf)) as [Hin|Hout].
    + split; [by right|]. intros _. by apply namesDefined_defined.
    + rewrite flow_registered_other by done. tauto.
  - intros Hall.
    assert (excluded conf "format-go" = true
            ∧ excluded conf "lint-go" = true
            ∧ excluded conf "format-markdown" = true
            ∧ excluded conf "lint-markdown" = true
            ∧ excluded conf "format-yaml" = true
            ∧ excluded conf "lint-yaml" = true)
      as (E1 & E2 & E3 & E4 & E5 & E6).
    { repeat split; apply Hall, elem_of_leafNames; tauto. }
    split; [|split].
    + unfold namesDefined, leafNames, leafCatalog. simpl.
      rewrite !filter_cons, filter_nil, E1, E2, E3, E4, E5, E6.
      by repeat case_decide.
    + rewrite flow_registered_format, formatTasks_registered, E1, E3, E5.
      by rewrite !app_nil_r.
    + rewrite flow_registered_lint, lintTasks_registered, E2, E4, E6.
      by rewrite !app_nil_r.
Qed.

End Standard.

(** * The theorems at work on concrete inputs *)

(** The scenario [DefineTasks(ExcludeTasks("lint-markdown", "format-yaml"))]:
    "lint" is left with lint-go and lint-yaml, "format" with format-go and
    format-markdown. *)
Example exclusion_scenario :
  ∃ s' lnt fmt,
    DefineTasks "v1" "v2" "v3" kindWorld
      [ExcludeTasks ["lint-markdown"; "format-yaml"]] initialEnv
    = Ok ((), s')
    ∧ flow s' !! "lint" = Some lnt ∧ Deps lnt = ["lint-go"; "lint-yaml"]
    ∧ flow s' !! "format" = Some fmt
    ∧ Deps fmt = ["format-go"; "format-markdown"].
Proof.
  set (conf := resolveConfig [ExcludeTasks ["lint-markdown"; "format-yaml"]]).
  set (s' := registered "v1" "v2" "v3" kindWorld conf initialEnv).
  exists s', (lintTask (lintTasks s')), (formatTask (formatTasks s')).
  split; [apply DefineTasks_run, ready_initialEnv|].
  split; [apply flow_registered_lint|].
  split; [unfold s'; cbn [Deps lintTask]; by rewrite lintTasks_registered|].
  split; [apply flow_registered_format|].
  unfold s'. cbn [Deps formatTask]. by rewrite formatTasks_registered.
Qed.

(** Calling [DefineTasks] a second time panics in [goyek.Define]: the
    names are taken. *)
Example second_call_panics :
  (DefineTasks "v1" "v2" "v3" kindWorld [] ;;
   DefineTasks "v1" "v2" "v3" kindWorld []) initialEnv
  = Panic "task with the same name is already defined".
Proof. vm_compute. reflexivity. Qed.

(** C1 on the scenario [DefineTasks(ExcludeTasks("lint-markdown",
    "format-yaml"))] in a fresh process. *)
Lemma excluded_leaf_absent_witness :
  ready initialEnv
  ∧ ∃ s',
      DefineTasks "v1" "v2" "v3" kindWorld
        [ExcludeTasks ["lint-markdown"; "format-yaml"]] initialEnv
      = Ok ((), s')
      ∧ flow s' !! "lint-markdown" = None
      ∧ ("lint-markdown" ∉ lintTasks s')
      ∧ ("lint-go" ∈ lintTasks s').
Proof.
  split; [exact ready_initialEnv|].
  destruct (excluded_leaf_absent "v1" "v2" "v3" kindWorld
              [ExcludeTasks ["lint-markdown"; "format-yaml"]] initialEnv
              ready_initialEnv)
    as (s' & fmt & lnt & Hrun & _ & _ & _ & _ & Hleaf).
  exists s'. split; [exact Hrun|].
  destruct (Hleaf "lint-markdown" Lint) as [_ Hout].
  { unfold leafCatalog. rewrite !elem_of_cons. tauto. }
  destruct (Hout ["lint-markdown"; "format-yaml"]) as (H1 & _ & H2 & _).
  { apply elem_of_cons. by left. }
  { apply elem_of_cons. by left. }
  destruct (Hleaf "lint-go" Lint) as [Hin _].
  { unfold leafCatalog. rewrite !elem_of_cons. tauto. }
  split; [exact H1|]. split; [exact H2|]. apply Hin. reflexivity.
Defined.

(** C3 in a fresh process where build/go.mod exists. *)
Lemma go_targets_follow_probe_witness :
  ready initialEnv
  ∧ ∃ s' t act,
      DefineTasks "v1" "v2" "v3" kindWorld [] initialEnv = Ok ((), s')
      ∧ oscalls s' = [CallStat "build/go.mod"]
      ∧ flow s' !! "lint-go" = Some t ∧ TaskAction t = Some act
      ∧ calls (act harshWorld fresh_run)
        = [CallRun
             "go run github.com/golangci/golangci-lint/cmd/golangci-lint@v1 run --timeout=20m ./... ./build"].
Proof.
  split; [exact ready_initialEnv|].
  destruct (go_targets_follow_probe "v1" "v2" "v3" kindWorld [] initialEnv
              ready_initialEnv)
    as (s' & Hrun & Hcalls & _ & Hlint).
  destruct (Hlint (excluded_default "lint-go")) as (t & act & Ht & Hact & Hcmd).
  exists s', t, act.
  split; [exact Hrun|]. split; [exact Hcalls|]. split; [exact Ht|].
  split; [exact Hact|]. exact (Hcmd harshWorld fresh_run).
Defined.

(** C4 with [ArtifactsPath("dist")], in a world where the directory can be
    created and in one where it cannot. *)
Lemma test_action_uses_artifacts_path_witness :
  ready initialEnv
  ∧ ∃ s' t act,
      DefineTasks "v1" "v2" "v3" kindWorld [ArtifactsPath "dist"] initialEnv
      = Ok ((), s')
      ∧ flow s' !! "test" = Some t ∧ TaskAction t = Some act
      ∧ calls (act kindWorld fresh_run)
        = [CallMkdirAll "dist" 493;
           CallRun
             "go test -coverprofile=dist/coverage.txt -covermode=atomic -v -timeout=20m ./..."]
      ∧ act harshWorld fresh_run
        = {| failed := true;
             messages :=
               ["failed to create out directory: permission denied"];
             calls := [CallMkdirAll "dist" 493] |}.
Proof.
  split; [exact ready_initialEnv|].
  destruct (test_action_uses_artifacts_path "v1" "v2" "v3" kindWorld
              [ArtifactsPath "dist"] initialEnv ready_initialEnv)
    as ((s' & t & act & Hrun & Ht & Hact & Hbody) & _).
  exists s', t, act.
  split; [exact Hrun|]. split; [exact Ht|]. split; [exact Hact|].
  split.
  - exact (proj2 (Hbody kindWorld fresh_run)).
  - exact (Hbody harshWorld fresh_run).
Defined.

(** C5 with a misspelt name next to a real one. *)
Lemma unknown_names_ignored_witness :
  (∀ n, String.eqb n "lint-golang" = true → n ∉ leafNames)
  ∧ DefineTasks "v1" "v2" "v3" kindWorld
      [ExcludeTasks ["lint-golang"; "lint-yaml"]] initialEnv
    = DefineTasks "v1" "v2" "v3" kindWorld
        [ExcludeTasks ["lint-yaml"]] initialEnv.
Proof.
  assert (∀ n, String.eqb n "lint-golang" = true → n ∉ leafNames) as Hdrop.
  { intros n Hn Hleaf. apply String.eqb_eq in Hn. subst n.
    apply elem_of_leafNames in Hleaf. intuition discriminate. }
  split; [exact Hdrop|].
  exact (proj1 (unknown_names_ignored "v1" "v2" "v3" kindWorld
                  (λ n, String.eqb n "lint-golang")
                  [ExcludeTasks ["lint-golang"; "lint-yaml"]] Hdrop)
           initialEnv).
Defined.

(** C8 on lint-yaml in a fresh process, in a world where every command
    fails. *)
Lemma leaves_parallel_one_or_two_commands_witness :
  ready initialEnv
  ∧ ∃ s' t act,
      DefineTasks "v1" "v2" "v3" harshWorld [] initialEnv = Ok ((), s')
      ∧ flow s' !! "lint-yaml" = Some t ∧ Parallel t = true
      ∧ TaskAction t = Some act
      ∧ length (commands (act harshWorld fresh_run)) = 2.
Proof.
  split; [exact ready_initialEnv|].
  destruct (leaves_parallel_one_or_two_commands "v1" "v2" "v3" harshWorld []
              initialEnv ready_initialEnv)
    as (s' & Hrun & Hleaf).
  destruct (Hleaf "lint-yaml") as (t & act & Ht & _ & Hpar & Hact & Hlen).
  { apply elem_of_leafNames. tauto. }
  { apply excluded_default. }
  exists s', t, act.
  split; [exact Hrun|]. split; [exact Ht|]. split; [exact Hpar|].
  split; [exact Hact|]. exact (proj1 (Hlen harshWorld fresh_run)).
Defined.

(** C9 with every meta name excluded, in a fresh process. *)
Lemma meta_tasks_always_registered_witness :
  ready initialEnv
  ∧ ∃ s' t,
      DefineTasks "v1" "v2" "v3" kindWorld [ExcludeTasks metaNames] initialEnv
      = Ok ((), s')
      ∧ flow s' !! "check" = Some t ∧ Name t = "check"
      ∧ DefineTasks "v1" "v2" "v3" kindWorld [ExcludeTasks metaNames] initialEnv
        = DefineTasks "v1" "v2" "v3" kindWorld [] initialEnv.
Proof.
  split; [exact ready_initialEnv|].
  destruct (meta_tasks_always_registered "v1" "v2" "v3" kindWorld
              [ExcludeTasks metaNames] initialEnv ready_initialEnv)
    as ((s' & Hrun & Hmeta) & _).
  destruct (Hmeta "check") as (t & Ht & Hname).
  { unfold metaNames. rewrite !elem_of_cons. tauto. }
  exists s', t.
  split; [exact Hrun|]. split; [exact Ht|]. split; [exact Hname|].
  exact (proj1 (proj2 (meta_tasks_always_registered "v1" "v2" "v3" kindWorld
                         [] initialEnv ready_initialEnv))).
Defined.

(** * The further properties at work on concrete inputs *)

Lemma fresh_process_returns w opts :
  DefineTasks "v1" "v2" "v3" w opts initialEnv
  = Ok ((), registered "v1" "v2" "v3" w (resolveConfig opts) initialEnv).
Proof. apply DefineTasks_run, ready_initialEnv. Qed.

Lemma callerEnv_names_free :
  Forall (λ n, flow callerEnv !! n = None)
    (namesDefined (resolveConfig [ExcludeTasks ["lint-go"]])).
Proof.
  apply Forall_forall. intros n Hn.
  apply elem_of_namesDefined in Hn as [ [Hleaf Hex] | Hmeta ].
  - apply elem_of_leafNames in Hleaf
      as [-> | [-> | [-> | [-> | [-> | ->] ] ] ] ];
      solve [ discriminate Hex | vm_compute; reflexivity ].
  - unfold metaNames in Hmeta. rewrite !elem_of_cons, elem_of_nil in Hmeta.
    destruct Hmeta as [-> | [-> | [-> | [-> | [-> | [] ] ] ] ] ];
      vm_compute; reflexivity.
Qed.

Lemma callerEnv_returns w :
  DefineTasks "v1" "v2" "v3" w [ExcludeTasks ["lint-go"]] callerEnv
  = Ok ((), registered "v1" "v2" "v3" w
              (resolveConfig [ExcludeTasks ["lint-go"]]) callerEnv).
Proof.
  rewrite DefineTasks_outcome by apply handles_defined_callerEnv.
  rewrite decide_True; [done|]. apply callerEnv_names_free.
Qed.

Lemma plain_dir_dist : plain_dir "dist".
Proof.
  repeat split; try discriminate. simpl.
  rewrite !not_elem_of_cons. repeat split; try discriminate.
  apply not_elem_of_nil.
Qed.

(** X1 where the caller has defined "lint-go": the call panics unless
    "lint-go" is excluded. *)
Lemma DefineTasks_returns_iff_names_free_witness :
  handles_defined callerEnv
  ∧ DefineTasks "v1" "v2" "v3" kindWorld [] callerEnv = Panic alreadyDefined
  ∧ ∃ s',
      DefineTasks "v1" "v2" "v3" kindWorld [ExcludeTasks ["lint-go"]] callerEnv
      = Ok ((), s').
Proof.
  split; [exact handles_defined_callerEnv|]. split.
  - apply (DefineTasks_returns_iff_names_free "v1" "v2" "v3" kindWorld []
             callerEnv handles_defined_callerEnv).
    apply Exists_exists. exists "lint-go". split.
    + apply elem_of_namesDefined. left.
      split; [apply elem_of_leafNames; tauto | reflexivity].
    + exists callerLintGo. vm_compute. reflexivity.
  - apply (DefineTasks_returns_iff_names_free "v1" "v2" "v3" kindWorld
             [ExcludeTasks ["lint-go"]] callerEnv handles_defined_callerEnv).
    exact callerEnv_names_free.
Defined.

(** X2 after a call without options in a fresh process. *)
Lemma DefineTasks_twice_panics_witness :
  handles_defined initialEnv
  ∧ ∃ s',
      DefineTasks "v1" "v2" "v3" kindWorld [] initialEnv = Ok ((), s')
      ∧ DefineTasks "v1" "v2" "v3" harshWorld [ExcludeTasks leafNames] s'
        = Panic alreadyDefined.
Proof.
  split; [exact handles_defined_initialEnv|]. eexists. split.
  - apply fresh_process_returns.
  - exact (DefineTasks_twice_panics "v1" "v2" "v3" kindWorld [] initialEnv _
             handles_defined_initialEnv (fresh_process_returns kindWorld [])
             harshWorld [ExcludeTasks leafNames]).
Defined.

(** X3 where the caller has defined "lint-go" and excludes it: the
    caller's task stays, and comes first among the lint tasks. *)
Lemma DefineTasks_only_adds_witness :
  handles_defined callerEnv
  ∧ ∃ s',
      DefineTasks "v1" "v2" "v3" kindWorld [ExcludeTasks ["lint-go"]] callerEnv
      = Ok ((), s')
      ∧ flow s' !! "lint-go" = Some callerLintGo
      ∧ lintTasks s' = ["lint-go"; "lint-markdown"; "lint-yaml"]
      ∧ flow s' !! "lint"
        = Some (lintTask ["lint-go"; "lint-markdown"; "lint-yaml"]).
Proof.
  split; [exact handles_defined_callerEnv|]. eexists.
  split; [apply callerEnv_returns|].
  destruct (DefineTasks_only_adds "v1" "v2" "v3" kindWorld
              [ExcludeTasks ["lint-go"]] callerEnv _
              handles_defined_callerEnv (callerEnv_returns kindWorld))
    as (Hkept & _ & _ & Hlint & _ & _ & Hdeps & _).
  split; [apply Hkept; vm_compute; reflexivity|].
  split; [exact Hlint|]. exact Hdeps.
Defined.

(** X4 from a fresh process. *)
Lemma DefineTasks_keeps_wellformed_witness :
  wellformed initialEnv
  ∧ ∃ s',
      DefineTasks "v1" "v2" "v3" kindWorld [] initialEnv = Ok ((), s')
      ∧ wellformed s'.
Proof.
  split; [exact wellformed_initialEnv|]. eexists.
  split; [apply fresh_process_returns|].
  exact (DefineTasks_keeps_wellformed "v1" "v2" "v3" kindWorld [] initialEnv _
           wellformed_initialEnv (fresh_process_returns kindWorld [])).
Defined.

(** X5 on two option lists that order, split and repeat the same
    exclusions and end on the same path. *)
Lemma DefineTasks_reads_path_and_exclusions_witness :
  DefineTasks "v1" "v2" "v3" kindWorld
    [ExcludeTasks ["lint-go"; "lint-golang"]; ArtifactsPath "dist";
     ExcludeTasks ["lint-yaml"]] initialEnv
  = DefineTasks "v1" "v2" "v3" kindWorld
      [ArtifactsPath "tmp"; ExcludeTasks ["lint-yaml"; "lint-go"; "lint-go"];
       ArtifactsPath "dist"] initialEnv.
Proof.
  apply DefineTasks_reads_path_and_exclusions; [reflexivity|].
  intros n Hn. apply elem_of_leafNames in Hn.
  change (n ∈ ["lint-go"; "lint-golang"; "lint-yaml"]
          ↔ n ∈ ["lint-yaml"; "lint-go"; "lint-go"]).
  rewrite !elem_of_cons, !elem_of_nil.
  intuition (subst; discriminate).
Defined.

(** X6 when an exclusion of format-go is added to one of lint-go. *)
Lemma more_options_fewer_tasks_witness :
  handles_defined initialEnv
  ∧ ∃ s1 s2,
      DefineTasks "v1" "v2" "v3" kindWorld [ExcludeTasks ["lint-go"]] initialEnv
      = Ok ((), s1)
      ∧ DefineTasks "v1" "v2" "v3" kindWorld
          [ExcludeTasks ["lint-go"]; ExcludeTasks ["format-go"]] initialEnv
        = Ok ((), s2)
      ∧ dom (flow s2) ⊆ dom (flow s1)
      ∧ formatTasks s2 ⊆ formatTasks s1.
Proof.
  split; [exact handles_defined_initialEnv|].
  destruct (more_options_fewer_tasks "v1" "v2" "v3" kindWorld
              [ExcludeTasks ["lint-go"]] [] [ExcludeTasks ["format-go"]]
              initialEnv _ handles_defined_initialEnv
              (fresh_process_returns kindWorld [ExcludeTasks ["lint-go"]]))
    as (_ & s2 & Hrun & Hdom & Hfmt & _).
  eexists _, s2. split; [apply fresh_process_returns|].
  split; [exact Hrun|]. split; [exact Hdom|exact Hfmt].
Defined.

(** X8 between the default path and [ArtifactsPath("dist")]. *)
Lemma artifacts_path_only_reaches_test_witness :
  handles_defined initialEnv
  ∧ ∃ s1 s2,
      DefineTasks "v1" "v2" "v3" kindWorld [] initialEnv = Ok ((), s1)
      ∧ DefineTasks "v1" "v2" "v3" kindWorld [ArtifactsPath "dist"] initialEnv
        = Ok ((), s2)
      ∧ flow s2 !! "check" = flow s1 !! "check"
      ∧ flow s2 !! "lint-yaml" = flow s1 !! "lint-yaml"
      ∧ lintTasks s2 = lintTasks s1.
Proof.
  split; [exact handles_defined_initialEnv|].
  destruct (artifacts_path_only_reaches_test "v1" "v2" "v3" kindWorld
              [] [ArtifactsPath "dist"] initialEnv _
              handles_defined_initialEnv eq_refl
              (fresh_process_returns kindWorld []))
    as (s2 & Hrun & Hflow & _ & Hlint & _).
  eexists _, s2. split; [apply fresh_process_returns|].
  split; [exact Hrun|]. split; [by apply Hflow|].
  split; [by apply Hflow|exact Hlint].
Defined.

(** X9 between a missing build/go.mod and one that cannot be read. *)
Lemma probe_answer_is_one_bit_witness :
  (stat_err harshWorld "build/go.mod" = None
   ↔ stat_err lockedWorld "build/go.mod" = None)
  ∧ DefineTasks "v1" "v2" "v3" harshWorld [] initialEnv
    = DefineTasks "v1" "v2" "v3" lockedWorld [] initialEnv.
Proof.
  assert (stat_err harshWorld "build/go.mod" = None
          ↔ stat_err lockedWorld "build/go.mod" = None) as Hbit.
  { split; discriminate. }
  split; [exact Hbit|].
  apply probe_answer_is_one_bit. left. exact Hbit.
Defined.


(** X12 with [ArtifactsPath("dist/")]. *)
Lemma coverage_beside_plain_dir_witness :
  handles_defined initialEnv ∧ plain_dir "dist"
  ∧ ∃ s' t act,
      DefineTasks "v1" "v2" "v3" kindWorld [ArtifactsPath "dist/"] initialEnv
      = Ok ((), s')
      ∧ flow s' !! "test" = Some t ∧ TaskAction t = Some act
      ∧ calls (act kindWorld fresh_run)
        = [CallMkdirAll "dist/" 493;
           CallRun
             "go test -coverprofile=dist/coverage.txt -covermode=atomic -v -timeout=20m ./..."].
Proof.
  split; [exact handles_defined_initialEnv|]. split; [exact plain_dir_dist|].
  destruct (coverage_beside_plain_dir "v1" "v2" "v3" kindWorld
              [ArtifactsPath "dist/"] initialEnv _ "dist"
              handles_defined_initialEnv
              (fresh_process_returns kindWorld [ArtifactsPath "dist/"])
              plain_dir_dist (or_intror eq_refl))
    as (t & act & Ht & Hact & Hcalls).
  eexists _, t, act. split; [apply fresh_process_returns|].
  split; [exact Ht|]. split; [exact Hact|].
  exact (Hcalls kindWorld fresh_run eq_refl).
Defined.

(** X13 when all six leaves are excluded in a fresh process. *)
Lemma registers_exactly_names_defined_witness :
  handles_defined initialEnv
  ∧ ∃ s',
      DefineTasks "v1" "v2" "v3" kindWorld [ExcludeTasks leafNames] initialEnv
      = Ok ((), s')
      ∧ dom (flow s') = list_to_set metaNames
      ∧ flow s' !! "format" = Some (formatTask [])
      ∧ flow s' !! "lint" = Some (lintTask []).
Proof.
  split; [exact handles_defined_initialEnv|].
  destruct (registers_exactly_names_defined "v1" "v2" "v3" kindWorld
              [ExcludeTasks leafNames] initialEnv _ handles_defined_initialEnv
              (fresh_process_returns kindWorld [ExcludeTasks leafNames]))
    as (Hdom & Hall).
  destruct Hall as (Hnames & Hfmt & Hlnt).
  { intros n Hn. apply excluded_resolveConfig. exists leafNames.
    split; [apply elem_of_cons; by left | exact Hn]. }
  eexists. split; [apply fresh_process_returns|].
  split; [|split; [exact Hfmt | exact Hlnt] ].
  rewrite Hdom, Hnames. unfold initialEnv. cbn [flow].
  rewrite dom_empty_L. apply (left_id_L ∅ (∪)).
Defined.
